(** * device-mapping-manager: the reconciliation daemon of [main.go]

    A shallow embedding of [main.go] (package [main]) and the properties
    of its specification.

    The daemon talks to the Docker engine, to the host file system and to
    the cgroup backend of package [internal/cgroup].  These collaborators
    are gathered in an environment record [Env]; the code of [main.go] is
    written in a small monad that threads the state of the cgroup
    backend, collects the calls and log lines the program makes, and
    stops at a panic or at [log.Fatal]. *)

From Stdlib Require Import ZArith Lia Ascii String.
From stdpp Require Import base option list strings gmap.

Local Open Scope Z_scope.
Local Open Scope string_scope.

(** ** Go values *)

(** A Go [error] value, identified by its message. *)
Definition error := string.

(** [const rootPath = "/host"] *)
Definition rootPath : string := "/host".

(** [const pluginId = "dvd"] *)
Definition pluginId : string := "dvd".

(** [unix.Stat_t]: the two fields [getDeviceInfo] reads.  [Mode] is a
    [uint32], [Rdev] a [uint64]. *)
Record Stat_t := { Mode : Z; Rdev : Z }.

(** [os.FileInfo]: [processContainer] only asks [IsDir()]. *)
Record FileInfo := { IsDir : bool }.

(** [cgroup.DeviceRule] as [applyDeviceRules] fills it in; a [*int64] is an
    [option Z], [None] being the nil pointer. *)
Record DeviceRule := {
  Access : string;
  Major : option Z;
  Minor : option Z;
  Type_ : string;
  Allow : bool
}.

Global Instance DeviceRule_eq_dec : EqDecision DeviceRule.
Proof. solve_decision. Defined.

(** [func Ptr[T any](v T) *T]: a fresh, non-nil pointer to [v]. *)
Definition Ptr {T : Type} (v : T) : option T := Some v.

(** [types.MountPoint], [types.ContainerState], [types.ContainerJSON] and
    [types.Container]: the fields the daemon reads. *)
Record MountPoint := { Source : string; Destination : string }.
Record ContainerState := { Pid : Z }.
Record ContainerJSON := { State : ContainerState; Mounts : list MountPoint }.
Record Container := { ID : string; Image : string }.

(** ** [golang.org/x/sys/unix]: file type bits and device numbers *)

Definition S_IFMT : Z := 0xf000.
Definition S_IFSOCK : Z := 0xc000.
Definition S_IFLNK : Z := 0xa000.
Definition S_IFREG : Z := 0x8000.
Definition S_IFBLK : Z := 0x6000.
Definition S_IFDIR : Z := 0x4000.
Definition S_IFCHR : Z := 0x2000.
Definition S_IFIFO : Z := 0x1000.

Definition uint32 (z : Z) : Z := z mod 2 ^ 32.

(** [unix.Major(dev uint64) uint32] on Linux. *)
Definition unix_Major (dev : Z) : Z :=
  Z.lor (uint32 (Z.shiftr (Z.land dev 0x00000000000fff00) 8))
        (uint32 (Z.shiftr (Z.land dev 0xfffff00000000000) 32)).

(** [unix.Minor(dev uint64) uint32] on Linux. *)
Definition unix_Minor (dev : Z) : Z :=
  Z.lor (uint32 (Z.shiftr (Z.land dev 0x00000000000000ff) 0))
        (uint32 (Z.shiftr (Z.land dev 0x00000ffffff00000) 12)).

(** [unix.Mkdev(major, minor uint32) uint64] on Linux, the encoding that
    [unix_Major] and [unix_Minor] take apart. *)
Definition unix_Mkdev (major minor : Z) : Z :=
  Z.lor (Z.lor (Z.lor (Z.shiftl (Z.land major 0x00000fff) 8)
                      (Z.shiftl (Z.land major 0xfffff000) 32))
               (Z.shiftl (Z.land minor 0x000000ff) 0))
        (Z.shiftl (Z.land minor 0xffffff00) 12).

(** ** [strings] and [path] *)

(** [strings.HasPrefix(s, prefix)] *)
Definition HasPrefix (s pre : string) : bool := String.prefix pre s.

(** [strings.Split(s, "/")], with [cur] the element being read. *)
Fixpoint split_slash (cur s : string) : list string :=
  match s with
  | EmptyString => [cur]
  | String c s' =>
      if Ascii.eqb c "/"%char then cur :: split_slash "" s'
      else split_slash (cur ++ String c "") s'
  end.

(** [strings.Join(elems, "/")] *)
Fixpoint join_slash (elems : list string) : string :=
  match elems with
  | [] => ""
  | [e] => e
  | e :: rest => e ++ "/" ++ join_slash rest
  end.

(** One element of a path in [path.Clean]; [out] is the cleaned path so far,
    last element first.  Empty elements and [.] are dropped; [..] removes
    the last element, is dropped at the root, and is kept at the start of a
    relative path. *)
Definition clean_elem (rooted : bool) (out : list string) (e : string)
  : list string :=
  if decide (e = "" ∨ e = ".") then out
  else if decide (e = "..") then
    match out with
    | top :: rest => if decide (top = "..") then e :: out else rest
    | [] => if rooted then [] else [e]
    end
  else e :: out.

(** [path.Clean(path)] *)
Definition path_Clean (p : string) : string :=
  match p with
  | EmptyString => "."
  | String c _ =>
      let rooted := Ascii.eqb c "/"%char in
      let out := rev (fold_left (clean_elem rooted) (split_slash "" p) []) in
      if rooted then "/" ++ join_slash out
      else match out with [] => "." | _ => join_slash out end
  end.

(** [path.Join(elem...)] (and [filepath.Join] on Linux): the non-empty
    elements joined by slashes, then cleaned; the empty string when every
    element is empty. *)
Definition path_Join (elem : list string) : string :=
  match filter (λ e, e ≠ "") elem with
  | [] => ""
  | es => path_Clean (join_slash es)
  end.

(** ** The file tree that [filepath.Walk] sees

    What [os.Lstat] and the sorted directory listing return at a path and
    below it: [LstatErr] where [os.Lstat] fails, [File] for anything that
    is not a directory, [DirErr] for a directory whose names cannot be
    read, [Dir] for a directory with its entries in the order of the
    listing. *)
Local Unset Elimination Schemes.
Inductive FsTree :=
| LstatErr (e : error)
| File
| DirErr (e : error)
| Dir (entries : list (string * FsTree)).
Local Set Elimination Schemes.

Section Daemon.

(** [Version] is the type of cgroup versions of package [internal/cgroup],
    [K] the state behind its [AddDeviceRules]: the device lists and
    programs of the kernel and what the backend itself remembers. *)
Context {Version K : Type}.

(** ** What the daemon does: log lines and calls *)

Inductive LogLine :=
| LogStarting
| LogError (e : error)
| LogCgroupVersion (pid : Z) (version : Version)
| LogCheckingMounts (pid : Z)
| LogMountRequested (id : string) (pid : Z) (source destination : string)
| LogNotADevice (source : string)
| LogCgroupPath (pid : Z) (cgroupPath : string)
| LogNeitherCharNorBlock
| LogFoundDevice (devicePath deviceType : string) (major minor : Z)
| LogAddingRule (pid : Z) (cgroupPath : string)
| LogCheckingExisting (shortId image : string).

Inductive Event :=
| EvLog (l : LogLine)
| EvContainerList
| EvContainerInspect (id : string)
| EvGetDeviceCGroupVersion (root : string) (pid : Z)
| EvNew (version : Version)
| EvGetDeviceCGroupMountPath (root : string) (pid : Z)
| EvOsStat (name : string)
| EvWalk (root : string)
| EvUnixStat (path : string)
| EvAddDeviceRules (cgroupPath : string) (rules : list DeviceRule).

(** ** The collaborators *)

(** [cgroup.Interface]: the two methods [main.go] calls. *)
Record Interface := {
  GetDeviceCGroupMountPath : string → Z → string * string * option error;
  AddDeviceRules : string → list DeviceRule → K → option error * K
}.

(** The Docker client, package [internal/cgroup] and the file system.  A
    Go result [(v, err)] whose [v] is read only when [err] is nil is a sum;
    [cgroup.New] and [cgroup.GetDeviceCGroupVersion], whose value is used
    whatever [err] is, return both.  A nil [cgroup.Interface] is [None]. *)
Record Env := {
  ContainerList : list Container + error;
  ContainerInspect : string → ContainerJSON + error;
  GetDeviceCGroupVersion : string → Z → Version * option error;
  cgroup_New : Version → option Interface * option error;
  os_Stat : string → FileInfo + error;
  unix_Stat : string → Stat_t + error;
  lstat_tree : string → FsTree
}.

(** ** The monad of the daemon *)

(** How the process ends when it does not return: a [panic] with an error
    value, a nil dereference, a slice out of range, or [os.Exit(1)] from
    [log.Fatal]. *)
Inductive Crash :=
| PanicError (e : error)
| PanicNilInterface
| PanicSliceBounds
| ExitFatal.

Inductive Res (A : Type) :=
| Ok (a : A)
| Crashed (c : Crash).
Global Arguments Ok {A} a.
Global Arguments Crashed {A} c.

Record Run (A : Type) := mkRun { result : Res A; trace : list Event; final : K }.
Global Arguments mkRun {A} _ _ _.
Global Arguments result {A} _.
Global Arguments trace {A} _.
Global Arguments final {A} _.

Definition M (A : Type) : Type := K → Run A.

Global Instance M_ret : MRet M := λ A a k, mkRun (Ok a) [] k.

Global Instance M_bind : MBind M := λ A B f m k,
  let r := m k in
  match result r with
  | Ok a => let r' := f a (final r) in
            mkRun (result r') (trace r ++ trace r') (final r')
  | Crashed c => mkRun (Crashed c) (trace r) (final r)
  end.

Definition emit (e : Event) : M unit := λ k, mkRun (Ok tt) [e] k.

Definition crash {A} (c : Crash) : M A := λ k, mkRun (Crashed c) [] k.

(** [log.Println], [log.Printf] *)
Definition log (l : LogLine) : M unit := emit (EvLog l).

(** [log.Fatal(err)]: print, then [os.Exit(1)]. *)
Definition log_Fatal {A} (err : error) : M A :=
  log (LogError err);; crash ExitFatal.

(** [panic(err)] *)
Definition panic {A} (err : error) : M A := crash (PanicError err).

End Daemon.

Global Arguments LogLine : clear implicits.
Global Arguments Event : clear implicits.
Global Arguments Interface : clear implicits.
Global Arguments Env : clear implicits.
Global Arguments Run : clear implicits.
Global Arguments M : clear implicits.

Local Open Scope stdpp_scope.

(** ** [main.go] *)

Section Main.

Context {Version K : Type}.
Variable env : Env Version K.

Local Abbreviation M := (M Version K).
Local Abbreviation Interface := (Interface K).

(** [int64(x)] of an unsigned value: two's complement wrap-around. *)
Definition int64 (z : Z) : Z := (z + 2 ^ 63) mod 2 ^ 64 - 2 ^ 63.

(** The [switch stat.Mode & unix.S_IFMT] of [getDeviceInfo]; [None] is its
    [default] case. *)
Definition deviceTypeOf (stat : Stat_t) : option string :=
  let fmt := Z.land (Mode stat) S_IFMT in
  if decide (fmt = S_IFBLK) then Some "b"
  else if decide (fmt = S_IFCHR) then Some "c"
  else None.

(** [func getDeviceInfo(devicePath string) (string, int64, int64, error)] *)
Definition getDeviceInfo (devicePath : string)
  : M (string * Z * Z * option error) :=
  emit (EvUnixStat devicePath);;
  match unix_Stat env devicePath with
  | inr err =>
      log (LogError err);;
      mret ("", -1, -1, Some err)
  | inl stat =>
      match deviceTypeOf stat with
      | None =>
          log LogNeitherCharNorBlock;;
          mret ("", -1, -1, Some "unsupported device type... aborting")
      | Some deviceType =>
          let major := int64 (unix_Major (Rdev stat)) in
          let minor := int64 (unix_Minor (Rdev stat)) in
          log (LogFoundDevice devicePath deviceType major minor);;
          mret (deviceType, major, minor, None)
      end
  end.

(** The method call [api.AddDeviceRules(cgroupPath, rules)]. *)
Definition call_AddDeviceRules (api : Interface) (cgroupPath : string)
    (rules : list DeviceRule) : M (option error) := λ k,
  let '(err, k') := AddDeviceRules api cgroupPath rules k in
  mkRun (Ok err) [EvAddDeviceRules cgroupPath rules] k'.

(** [func applyDeviceRules(api cgroup.Interface, mountPath string,
    cgroupPath string, pid int) error] *)
Definition applyDeviceRules (api : Interface) (mountPath cgroupPath : string)
    (pid : Z) : M (option error) :=
  '(deviceType, major, minor, err) ← getDeviceInfo mountPath;
  match err with
  | Some e =>
      log (LogError e);;
      mret (Some e)
  | None =>
      log (LogAddingRule pid cgroupPath);;
      err ← call_AddDeviceRules api cgroupPath
              [ {| Access := "rwm";
                   Major := Ptr major;
                   Minor := Ptr minor;
                   Type_ := deviceType;
                   Allow := true |} ];
      match err with
      | Some e =>
          log (LogError e);;
          mret (Some e)
      | None => mret None
      end
  end.

(** [filepath.WalkFunc] *)
Definition WalkFunc : Type :=
  string → option FileInfo → option error → M (option error).

(** The [for _, name := range names] loop of the unexported [walk] of
    [path/filepath]: it returns at the first error of its body. *)
Fixpoint rangeNames {X : Type} (body : X → M (option error)) (names : list X)
  : M (option error) :=
  match names with
  | [] => mret None
  | name :: rest =>
      err ← body name;
      match err with
      | Some e => mret (Some e)
      | None => rangeNames body rest
      end
  end.

(** The unexported [walk] of [path/filepath], over the tree found at
    [path].  The case [LstatErr] is the call of the function that
    [filepath.Walk] and [walk] make where [os.Lstat] fails.  The sentinel
    errors [SkipDir] and [SkipAll] are left out: the function [main.go]
    passes returns nil or the error it was given, which is never one of
    them. *)
Fixpoint walk (fn : WalkFunc) (path : string) (t : FsTree) : M (option error) :=
  match t with
  | LstatErr e => fn path None (Some e)
  | File => fn path (Some {| IsDir := false |}) None
  | DirErr e => fn path (Some {| IsDir := true |}) (Some e)
  | Dir entries =>
      err1 ← fn path (Some {| IsDir := true |}) None;
      match err1 with
      | Some e => mret (Some e)
      | None =>
          rangeNames (λ entry, walk fn (path_Join [path; entry.1]) entry.2)
            entries
      end
  end.

(** [filepath.Walk(root, fn)] *)
Definition filepath_Walk (root : string) (fn : WalkFunc) : M (option error) :=
  emit (EvWalk root);;
  walk fn root (lstat_tree env root).

(** [if err != nil { log.Println(err) }] *)
Definition logIfError (err : option error) : M unit :=
  match err with
  | Some e => log (LogError e)
  | None => mret tt
  end.

(** The function literal that [processContainer] hands to [filepath.Walk].
    [filepath.Walk] passes a nil [info] only together with an error. *)
Definition walkFn (api : Interface) (cgroupPath : string) (pid : Z) : WalkFunc :=
  λ path info err,
  match err with
  | Some e => mret (Some e)
  | None =>
      match info with
      | None => crash PanicNilInterface
      | Some info =>
          if IsDir info then mret None
          else
            err ← applyDeviceRules api path cgroupPath pid;
            logIfError err;;
            mret None
      end
  end.

(** How one turn of a [for] loop ends: at its end or at [continue], or at
    [break]. *)
Inductive LoopCtl := Continue | Break.

(** The body of [for _, mount := range info.Mounts] in [processContainer]. *)
Definition mountBody (id : string) (info : ContainerJSON) (pid : Z)
    (version : Version) (mount : MountPoint) : M LoopCtl :=
  log (LogMountRequested id (Pid (State info)) (Source mount) (Destination mount));;
  if negb (HasPrefix (Source mount) "/dev") then
    log (LogNotADevice (Source mount));;
    mret Continue
  else
    emit (EvNew version);;
    let '(api, _) := cgroup_New env version in
    match api with
    | None => crash PanicNilInterface
    | Some api =>
        emit (EvGetDeviceCGroupMountPath "/" pid);;
        let '(cgroupPath, sysfsPath, err) := GetDeviceCGroupMountPath api "/" pid in
        match err with
        | Some e =>
            log (LogError e);;
            mret Break
        | None =>
            let cgroupPath := path_Join [rootPath; sysfsPath; cgroupPath] in
            log (LogCgroupPath pid cgroupPath);;
            emit (EvOsStat (Source mount));;
            match os_Stat env (Source mount) with
            | inr e =>
                log (LogError e);;
                mret Continue
            | inl fileInfo =>
                if IsDir fileInfo then
                  err ← filepath_Walk (Source mount) (walkFn api cgroupPath pid);
                  logIfError err;;
                  mret Continue
                else
                  err ← applyDeviceRules api (Source mount) cgroupPath pid;
                  logIfError err;;
                  mret Continue
            end
        end
    end.

(** [for _, mount := range info.Mounts { ... }] *)
Fixpoint rangeMounts (body : MountPoint → M LoopCtl) (mounts : list MountPoint)
  : M unit :=
  match mounts with
  | [] => mret tt
  | mount :: rest =>
      c ← body mount;
      match c with
      | Continue => rangeMounts body rest
      | Break => mret tt
      end
  end.

(** [func processContainer(cli *client.Client, id string)] *)
Definition processContainer (id : string) : M unit :=
  emit (EvContainerInspect id);;
  match ContainerInspect env id with
  | inr err => panic err
  | inl info =>
      let pid := Pid (State info) in
      emit (EvGetDeviceCGroupVersion "/" pid);;
      let '(version, err) := GetDeviceCGroupVersion env "/" pid in
      log (LogCgroupVersion pid version);;
      match err with
      | Some e => log (LogError e)
      | None =>
          log (LogCheckingMounts pid);;
          rangeMounts (mountBody id info pid version) (Mounts info)
      end
  end.

(** [for _, container := range containers { ... }] of
    [checkExistingContainers]; the slice [container.ID[:10]] panics on an
    ID shorter than ten bytes. *)
Fixpoint rangeContainers (containers : list Container) : M unit :=
  match containers with
  | [] => mret tt
  | container :: rest =>
      (if decide (String.length (ID container) < 10)%nat
       then crash PanicSliceBounds
       else log (LogCheckingExisting (substring 0 10 (ID container))
                                     (Image container)));;
      processContainer (ID container);;
      rangeContainers rest
  end.

(** [func checkExistingContainers(cli *client.Client)] *)
Definition checkExistingContainers : M unit :=
  emit EvContainerList;;
  match ContainerList env with
  | inr err => panic err
  | inl containers => rangeContainers containers
  end.

(** What arrives on the two channels of [cli.Events], in the order the
    [select] of [listenForMounts] takes it. *)
Inductive StreamItem :=
| StreamError (err : error)
| StreamStart (actorID : string).

(** [func listenForMounts(cli *client.Client)], run on the items that have
    arrived so far; it returns where the Go loop blocks in [select]. *)
Fixpoint listenForMounts (items : list StreamItem) : M unit :=
  match items with
  | [] => mret tt
  | StreamError err :: _ => log_Fatal err
  | StreamStart actorID :: rest =>
      processContainer actorID;;
      listenForMounts rest
  end.

(** The main goroutine of [func main()] once the Docker client exists:
    the scan of the existing containers, then the event loop. *)
Definition main (items : list StreamItem) : M unit :=
  log LogStarting;;
  checkExistingContainers;;
  listenForMounts items.

End Main.

(** ** Package [internal/cgroup] *)

Module cgroup.

(** Modelled from the spec: the cgroup versions [{V1, V2}] of package
    [internal/cgroup], which [main.go] imports and whose source is not
    part of the files at hand (spec, section 3, CgroupVersion). *)
Inductive CgroupVersion := V1 | V2.

Global Instance CgroupVersion_eq_dec : EqDecision CgroupVersion.
Proof. solve_decision. Defined.

(** Modelled from the spec: the device reference [{kind: char|block,
    major, minor}] of section 3, which package [internal/cgroup] grants
    access to. *)
Inductive DeviceKind := CharDevice | BlockDevice.

Record DeviceRef := { kind : DeviceKind; major : Z; minor : Z }.

(** The letter of a device kind in the textual rule syntax
    [<type> <major>:<minor> <access-letters>]. *)
Definition kind_letter (k : DeviceKind) : string :=
  match k with
  | CharDevice => "c"
  | BlockDevice => "b"
  end.

(** Modelled from the spec: the cgroup target [{version, path, mountRoot}]
    of section 3, where package [internal/cgroup] writes or attaches
    rules. *)
Record CgroupTarget := {
  version : CgroupVersion;
  path : string;
  mountRoot : string
}.

(** Modelled from the spec: the state behind the Device Rule Applier of
    package [internal/cgroup] (section 4.4).  [allow_list] is the device
    allow-list the kernel keeps for a V1 cgroup directory; [applied] is the
    process-local record, keyed by cgroup path, of all rules ever applied
    to a V2 path; [attached] holds, per V2 cgroup path, the rules that the
    attached filter program encodes. *)
Record CgroupState := {
  allow_list : gmap string (list DeviceRule);
  applied : gmap string (list DeviceRule);
  attached : gmap string (list DeviceRule)
}.

Definition empty_state : CgroupState :=
  {| allow_list := ∅; applied := ∅; attached := ∅ |}.

(** Modelled from the spec: the host as package [internal/cgroup] meets
    it.  [resolvePath] is the Cgroup Path Resolver of section 4.3, which
    returns the cgroup path and the mount root or an error;
    [accepts_rule] and [accepts_program] say whether the kernel confirms
    the write of a rule to a V1 allow-list and the attachment of a V2
    program, or rejects it (section 4.4, last item). *)
Record Host := {
  resolvePath : CgroupVersion → string → Z → string * string * option error;
  accepts_rule : string → DeviceRule → bool;
  accepts_program : string → list DeviceRule → bool
}.

(** The rules of a path in one of the maps of [CgroupState]; none when the path
    has no entry. *)
Definition rules_at (m : gmap string (list DeviceRule)) (p : string)
  : list DeviceRule :=
  default [] (m !! p).

(** Adding a rule to a list that holds every rule once. *)
Definition add_rule (l : list DeviceRule) (r : DeviceRule) : list DeviceRule :=
  if decide (r ∈ l) then l else l ++ [r].

(** The union of a list of rules with new rules. *)
Definition union_rules (l rules : list DeviceRule) : list DeviceRule :=
  foldl add_rule l rules.

(** Modelled from the spec: the V1 path of the Device Rule Applier of
    package [internal/cgroup] (section 4.4).  Each rule is appended to the
    allow-list of the cgroup directory; the list is additive and
    deduplicating; a rejection by the kernel is returned as an error. *)
Fixpoint AddDeviceRulesV1 (h : Host) (p : string) (rules : list DeviceRule)
    (st : CgroupState) : option error * CgroupState :=
  match rules with
  | [] => (None, st)
  | r :: rest =>
      if accepts_rule h p r then
        AddDeviceRulesV1 h p rest
          {| allow_list :=
               <[p := add_rule (rules_at (allow_list st) p) r]> (allow_list st);
             applied := applied st;
             attached := attached st |}
      else (Some "device rule rejected", st)
  end.

(** Modelled from the spec: the V2 path of the Device Rule Applier of
    package [internal/cgroup] (section 4.4, strategy (a)).  The new rules
    are united with the record of all rules ever applied to the path, and a
    single program that encodes the union is attached, replacing the one
    attached before; a rejection by the kernel leaves the attached program
    as it was and is returned as an error. *)
Definition AddDeviceRulesV2 (h : Host) (p : string) (rules : list DeviceRule)
    (st : CgroupState) : option error * CgroupState :=
  let all := union_rules (rules_at (applied st) p) rules in
  if accepts_program h p all then
    (None, {| allow_list := allow_list st;
              applied := <[p := all]> (applied st);
              attached := <[p := all]> (attached st) |})
  else
    (Some "device program rejected",
     {| allow_list := allow_list st;
        applied := <[p := all]> (applied st);
        attached := attached st |}).

(** Modelled from the spec: the two backends of package [internal/cgroup]
    behind the shared contract [{resolvePath, applyRule}] (section 9). *)
Definition backend (h : Host) (v : CgroupVersion) : Interface CgroupState :=
  {| GetDeviceCGroupMountPath := resolvePath h v;
     AddDeviceRules := match v with
                       | V1 => AddDeviceRulesV1 h
                       | V2 => AddDeviceRulesV2 h
                       end |}.

(** Modelled from the spec: [cgroup.New] of package [internal/cgroup],
    which selects the backend of a version. *)
Definition New (h : Host) (v : CgroupVersion)
  : option (Interface CgroupState) * option error :=
  (Some (backend h v), None).

(** The rules in force at a target: the allow-list of a V1 directory, the
    rules of the program attached to a V2 path. *)
Definition effective (t : CgroupTarget) (st : CgroupState) : list DeviceRule :=
  match version t with
  | V1 => rules_at (allow_list st) (path t)
  | V2 => rules_at (attached st) (path t)
  end.

(** A rule grants a device: an allow-rule for its kind and numbers. *)
Definition grants (d : DeviceRef) (r : DeviceRule) : bool :=
  Allow r
  && bool_decide (Type_ r = kind_letter (kind d))
  && bool_decide (Major r = Some (major d))
  && bool_decide (Minor r = Some (minor d)).

(** The allow-set of a target, as a predicate on devices. *)
Definition allowed (t : CgroupTarget) (st : CgroupState) (d : DeviceRef) : bool :=
  existsb (grants d) (effective t st).

(** The rule of the Device Rule Applier for a device: full access. *)
Definition rule_for (d : DeviceRef) : DeviceRule :=
  {| Access := "rwm";
     Major := Some (major d);
     Minor := Some (minor d);
     Type_ := kind_letter (kind d);
     Allow := true |}.

(** [apply(target, rule)]: the Device Rule Applier at a target. *)
Definition applyRule (h : Host) (t : CgroupTarget) (r : DeviceRule) (st : CgroupState)
  : CgroupState :=
  (AddDeviceRules (backend h (version t)) (path t) [r] st).2.

(** The Device Rule Applier run over a list of targets and rules, in
    order. *)
Definition apply_all (h : Host) (calls : list (CgroupTarget * DeviceRule))
    (st : CgroupState) : CgroupState :=
  foldl (λ st c, applyRule h c.1 c.2 st) st calls.


End cgroup.

(** ** Notions of the specification *)

(** A path lies under the device-file namespace [/dev]: it is [/dev] or a
    path below the directory [/dev]. *)
Definition lies_under_dev (p : string) : bool :=
  bool_decide (p = "/dev") || String.prefix "/dev/" p.

(** No element of the path is [..]. *)
Definition no_dotdot (p : string) : Prop :=
  Forall (λ e, e ≠ "..") (split_slash "" p).

(** The non-directory files beneath a directory tree found at [path], in
    the order of the sorted listings. *)
Fixpoint files_beneath (path : string) (t : FsTree) : list string :=
  match t with
  | File => [path]
  | Dir entries =>
      concat (map (λ entry, files_beneath (path_Join [path; entry.1]) entry.2)
                entries)
  | LstatErr _ | DirErr _ => []
  end.

(** A tree every node of which can be read: [os.Lstat] and the listing of
    names succeed throughout. *)
Fixpoint readable (t : FsTree) : bool :=
  match t with
  | File => true
  | Dir entries => forallb (λ entry, readable entry.2) entries
  | LstatErr _ | DirErr _ => false
  end.

Section Observations.

Context {Version K : Type}.

(** The paths handed to the Device Identity Resolver in a trace, one for
    each run of the pipeline [applyDeviceRules]. *)
Definition resolver_calls (tr : list (Event Version)) : list string :=
  omap (λ ev, match ev with EvUnixStat p => Some p | _ => None end) tr.

(** The rule lists handed to the cgroup backend in a trace. *)
Definition backend_calls (tr : list (Event Version))
  : list (string * list DeviceRule) :=
  omap (λ ev, match ev with
              | EvAddDeviceRules cgroupPath rules => Some (cgroupPath, rules)
              | _ => None
              end) tr.

(** The host paths and roots the daemon hands to the file system and to
    the version detector and path resolver in a trace. *)
Definition accessed_paths (tr : list (Event Version)) : list string :=
  omap (λ ev, match ev with
              | EvGetDeviceCGroupVersion root _ => Some root
              | EvGetDeviceCGroupMountPath root _ => Some root
              | EvOsStat p => Some p
              | EvWalk p => Some p
              | EvUnixStat p => Some p
              | EvAddDeviceRules p _ => Some p
              | _ => None
              end) tr.


(** The log lines of a mount that the loop skips for its source. *)
Definition skipped_lines (id : string) (info : ContainerJSON) (m : MountPoint)
  : list (Event Version) :=
  [EvLog (LogMountRequested id (Pid (State info)) (Source m) (Destination m));
   EvLog (LogNotADevice (Source m))].

(** The line of [if err != nil { log.Println(err) }]. *)
Definition error_lines (err : option error) : list (Event Version) :=
  match err with
  | Some e => [EvLog (LogError e)]
  | None => []
  end.

(** A call of the cgroup backend as the pipeline makes it: the backend,
    the cgroup path and the single rule. *)
Definition BackendCall : Type := Interface K * string * DeviceRule.

Definition do_call (k : K) (c : BackendCall) : K :=
  (AddDeviceRules c.1.1 c.1.2 [c.2] k).2.

Definition do_calls (cs : list BackendCall) (k : K) : K := foldl do_call k cs.

(** The backend of a call is one that [cgroup.New] returns. *)
Definition from_New (env : Env Version K) (c : BackendCall) : Prop :=
  ∃ version, (cgroup_New env version).1 = Some c.1.1.

(** The rule of the pipeline for a file whose metadata is [stat]. *)
Definition rule_of_stat (deviceType : string) (stat : Stat_t) : DeviceRule :=
  {| Access := "rwm";
     Major := Some (unix_Major (Rdev stat));
     Minor := Some (unix_Minor (Rdev stat));
     Type_ := deviceType;
     Allow := true |}.

(** [mount] is a mount of a container that the runtime reports. *)
Definition mount_of (env : Env Version K) (mount : MountPoint) : Prop :=
  ∃ id info, ContainerInspect env id = inl info ∧ mount ∈ Mounts info.

(** [p] is the source of a reported mount that begins with [/dev], or the
    path of a file found beneath it, as the runtime and the walk give
    it. *)
Definition found_at (env : Env Version K) (p : string) : Prop :=
  ∃ mount, mount_of env mount
    ∧ HasPrefix (Source mount) "/dev" = true
    ∧ (p = Source mount
       ∨ p ∈ files_beneath (Source mount) (lstat_tree env (Source mount))).

(** [cgroupPath] is what the path resolver, called with the root [/],
    returned for a process, joined under the host root. *)
Definition resolved_path (env : Env Version K) (cgroupPath : string) : Prop :=
  ∃ version api pid cg sysfs,
    (cgroup_New env version).1 = Some api
    ∧ GetDeviceCGroupMountPath api "/" pid = (cg, sysfs, None)
    ∧ cgroupPath = path_Join [rootPath; sysfs; cg].

(** [rules] is the single rule of a device that the resolver found. *)
Definition resolved_rule (env : Env Version K) (rules : list DeviceRule) : Prop :=
  ∃ p stat deviceType,
    unix_Stat env p = inl stat
    ∧ deviceTypeOf stat = Some deviceType
    ∧ rules = [rule_of_stat deviceType stat].

(** What holds of every call the daemon makes. *)
Definition expected (env : Env Version K) (ev : Event Version) : Prop :=
  match ev with
  | EvGetDeviceCGroupVersion root _ => root = "/"
  | EvGetDeviceCGroupMountPath root _ => root = "/"
  | EvOsStat p | EvWalk p =>
      ∃ mount, mount_of env mount
        ∧ HasPrefix (Source mount) "/dev" = true ∧ p = Source mount
  | EvUnixStat p => found_at env p
  | EvAddDeviceRules cgroupPath rules =>
      resolved_path env cgroupPath ∧ resolved_rule env rules
  | _ => True
  end.

(** [m] changes the state of the backend through a list of calls which,
    like its result, is the same from every state, and every call it
    makes is as [expected]. *)
Definition Tame (env : Env Version K) {A} (m : M Version K A) : Prop :=
  ∃ (cs : list BackendCall) (r : Res A),
    Forall (from_New env) cs
    ∧ ∀ k, final (m k) = do_calls cs k
           ∧ result (m k) = r
           ∧ Forall (expected env) (trace (m k)).

(** The run did not end the process. *)
Definition returns {A} (r : Run K Version A) : Prop :=
  ∃ a, result r = Ok a.

End Observations.

(** ** A host with three containers *)

Module Demo.

(** A container with a data volume, the directory [/dev/dri] and the disk
    [/dev/sda]. *)
Definition desktop : string := "0123456789abcdef0123".

(** A container whose process has no cgroup the resolver can find. *)
Definition orphan : string := "fedcba9876543210fedc".

(** A container with a device node outside [/dev]. *)
Definition legacy : string := "aaaaaaaaaabbbbbbbbbb".

Definition host : cgroup.Host :=
  {| cgroup.resolvePath := λ v root pid,
       if decide (pid = 77) then ("", "", Some "no cgroup for process")
       else if decide (pid = 5151) then ("/docker/" ++ legacy, "/sys/fs/cgroup", None)
       else ("/docker/" ++ desktop, "/sys/fs/cgroup", None);
     cgroup.accepts_rule := λ _ _, true;
     cgroup.accepts_program := λ _ _, true |}.

Definition dri : MountPoint := {| Source := "/dev/dri"; Destination := "/dev/dri" |}.
Definition sda : MountPoint := {| Source := "/dev/sda"; Destination := "/dev/disk" |}.
Definition data : MountPoint := {| Source := "/data"; Destination := "/srv" |}.
Definition disk0 : MountPoint :=
  {| Source := "/devices/disk0"; Destination := "/dev/disk0" |}.

(** [c 226:0], [c 226:128], [b 8:0], [b 8:16] and a regular file. *)
Definition card0_stat : Stat_t := {| Mode := 0x21b0; Rdev := 0xe200 |}.
Definition renderD128_stat : Stat_t := {| Mode := 0x21b6; Rdev := 0xe280 |}.
Definition sda_stat : Stat_t := {| Mode := 0x61b0; Rdev := 0x0800 |}.
Definition disk0_stat : Stat_t := {| Mode := 0x61b0; Rdev := 0x0810 |}.
Definition readme_stat : Stat_t := {| Mode := 0x81a4; Rdev := 0 |}.

Definition env : Env cgroup.CgroupVersion cgroup.CgroupState :=
  {| ContainerList :=
       inl [ {| ID := orphan; Image := "busybox" |};
             {| ID := desktop; Image := "rdesktop" |} ];
     ContainerInspect := λ id,
       if decide (id = desktop) then
         inl {| State := {| Pid := 4242 |}; Mounts := [data; dri; sda] |}
       else if decide (id = orphan) then
         inl {| State := {| Pid := 77 |}; Mounts := [dri; sda] |}
       else if decide (id = legacy) then
         inl {| State := {| Pid := 5151 |}; Mounts := [disk0] |}
       else inr "No such container";
     GetDeviceCGroupVersion := λ _ _, (cgroup.V2, None);
     cgroup_New := cgroup.New host;
     os_Stat := λ p,
       if decide (p = "/dev/dri") then inl {| IsDir := true |}
       else if decide (p = "/dev/sda" ∨ p = "/devices/disk0")
       then inl {| IsDir := false |}
       else inr "no such file or directory";
     unix_Stat := λ p,
       if decide (p = "/dev/dri/card0") then inl card0_stat
       else if decide (p = "/dev/dri/renderD128") then inl renderD128_stat
       else if decide (p = "/dev/sda") then inl sda_stat
       else if decide (p = "/devices/disk0") then inl disk0_stat
       else if decide (p = "/dev/dri/README") then inl readme_stat
       else inr "no such file or directory";
     lstat_tree := λ p,
       if decide (p = "/dev/dri") then
         Dir [ ("README", File);
               ("by-path", Dir []);
               ("card0", File);
               ("renderD128", File) ]
       else LstatErr "no such file or directory" |}.

(** The cgroup of [desktop] on the unified hierarchy, and two of its
    devices. *)
Definition desktop_target : cgroup.CgroupTarget :=
  {| cgroup.version := cgroup.V2;
     cgroup.path := "/host/sys/fs/cgroup/docker/0123456789abcdef0123";
     cgroup.mountRoot := "/host/sys/fs/cgroup" |}.

Definition card0 : cgroup.DeviceRef :=
  {| cgroup.kind := cgroup.CharDevice; cgroup.major := 226; cgroup.minor := 0 |}.


End Demo.

(** ** [main.go]: start-up and the reload listener *)

(** A value of the body of a D-Bus signal, an [interface{}] in Go. *)
Inductive BusValue :=
| BusBool (b : bool)
| BusString (s : string)
| BusInt (z : Z).

(** [dbus.Signal]: the fields the listener reads. *)
Record Signal := { Name : string; Body : list BusValue }.

(** The member that [main] subscribes to. *)
Definition reloadingSignal : string :=
  "org.freedesktop.systemd1.Manager.Reloading".

(** [var active bool; if len(v.Body) > 0 { active, _ = v.Body[0].(bool) }] *)
Definition reloadActive (body : list BusValue) : bool :=
  match body with
  | BusBool b :: _ => b
  | _ => false
  end.

(** The log lines of [main] about the system bus. *)
Inductive BusLine :=
| LogBusFailed (e : error)
| LogBusConnected
| LogMatchFailed (e : error)
| LogListening
| LogReloading (active : bool)
| LogReprocessing.

(** The errors of the three calls [main] makes before it scans:
    [client.NewClientWithOpts], [dbus.SystemBus] and
    [conn.AddMatchSignal]; [None] is nil. *)
Record Startup := {
  NewClientWithOpts : option error;
  SystemBus : option error;
  AddMatchSignal : option error
}.

Section Startup.

Context {Version K : Type}.
Variable env : Env Version K.

(** A run of a goroutine of [main]: how it ends, the bus lines and the
    calls and lines of the scans in order, and the state of the backend
    it leaves. *)
Record Outcome := mkOutcome {
  outcome : Res unit;
  lines : list (BusLine + Event Version);
  state : K
}.

(** The [for v := range c] loop of the goroutine that [main] starts, run
    on the signals received so far. *)
Fixpoint rangeSignals (signals : list Signal) (k : K) : Outcome :=
  match signals with
  | [] => mkOutcome (Ok tt) [] k
  | v :: rest =>
      if decide (Name v = reloadingSignal) then
        let active := reloadActive (Body v) in
        let r := checkExistingContainers env k in
        let here := inl (LogReloading active) :: inl LogReprocessing
                    :: map inr (trace r) in
        match result r with
        | Ok _ =>
            let o := rangeSignals rest (final r) in
            mkOutcome (outcome o) (here ++ lines o) (state o)
        | Crashed c => mkOutcome (Crashed c) here (final r)
        end
      else rangeSignals rest k
  end.

(** The goroutine that [main] starts for the reload signals. *)
Definition reloadListener (signals : list Signal) (k : K) : Outcome :=
  let o := rangeSignals signals k in
  mkOutcome (outcome o) (inl LogListening :: lines o) (state o).

(** The set-up of the bus in [main]: its log lines, and whether the
    listener goroutine is started. *)
Definition connectBus (s : Startup) : list BusLine * bool :=
  match SystemBus s with
  | Some e => ([LogBusFailed e], false)
  | None =>
      match AddMatchSignal s with
      | Some e => ([LogBusConnected; LogMatchFailed e], false)
      | None => ([LogBusConnected], true)
      end
  end.

(** [func main()], the main goroutine: its run, and whether it started
    the listener goroutine. *)
Definition main_goroutine (s : Startup) (items : list StreamItem) (k : K)
  : Outcome * bool :=
  match NewClientWithOpts s with
  | Some e =>
      (mkOutcome (Crashed ExitFatal)
         [inr (EvLog LogStarting); inr (EvLog (LogError e))] k, false)
  | None =>
      let bus := connectBus s in
      let r := (checkExistingContainers env;; listenForMounts env items) k in
      (mkOutcome (result r)
         (inr (EvLog LogStarting) :: map inl bus.1 ++ map inr (trace r))
         (final r), bus.2)
  end.

(** The calls and lines of the scans among the lines of a goroutine. *)
Definition scan_events (ls : list (BusLine + Event Version))
  : list (Event Version) :=
  omap (λ l, match l with inr ev => Some ev | inl _ => None end) ls.

(** The flags logged for the reload signals among the lines of a
    goroutine. *)
Definition reload_flags (ls : list (BusLine + Event Version)) : list bool :=
  omap (λ l, match l with inl (LogReloading b) => Some b | _ => None end) ls.

(** The call of the backend that the pipeline makes for the file at [p],
    if the resolver finds a device there. *)
Definition planned_call (cgroupPath p : string)
  : option (string * list DeviceRule) :=
  match unix_Stat env p with
  | inl stat =>
      match deviceTypeOf stat with
      | Some deviceType => Some (cgroupPath, [rule_of_stat deviceType stat])
      | None => None
      end
  | inr _ => None
  end.

End Startup.

Global Arguments Outcome : clear implicits.

(** The first error of a tree in the order of the walk, if any. *)
Fixpoint first_error (t : FsTree) : option error :=
  match t with
  | LstatErr e | DirErr e => Some e
  | File => None
  | Dir entries =>
      foldr (λ entry later,
               match first_error entry.2 with
               | Some e => Some e
               | None => later
               end) None entries
  end.

(** ** A host with faults *)

Module Faulty.

(** A container with no mount under [/dev]. *)
Definition plain : string := "ccccccccccdddddddddd".

(** A container whose cgroup version cannot be detected. *)
Definition undetected : string := "eeeeeeeeeeffffffffff".

(** A container on a hierarchy for which [cgroup.New] has no backend. *)
Definition unsupported : string := "11111111112222222222".

(** A container with a short identifier. *)
Definition short : string := "abc".

Definition lib : MountPoint := {| Source := "/var/lib"; Destination := "/lib" |}.
Definition missing : MountPoint :=
  {| Source := "/dev/missing"; Destination := "/dev/missing" |}.

Definition env : Env cgroup.CgroupVersion cgroup.CgroupState :=
  {| ContainerList :=
       inl [ {| ID := Demo.desktop; Image := "rdesktop" |};
             {| ID := short; Image := "busybox" |};
             {| ID := plain; Image := "nginx" |} ];
     ContainerInspect := λ id,
       if decide (id = plain) then
         inl {| State := {| Pid := 12 |}; Mounts := [Demo.data; lib] |}
       else if decide (id = undetected) then
         inl {| State := {| Pid := 13 |}; Mounts := [Demo.dri] |}
       else if decide (id = unsupported) then
         inl {| State := {| Pid := 14 |}; Mounts := [Demo.data; Demo.dri; Demo.sda] |}
       else ContainerInspect Demo.env id;
     GetDeviceCGroupVersion := λ _ pid,
       if decide (pid = 13) then (cgroup.V1, Some "cgroup version not found")
       else if decide (pid = 14) then (cgroup.V1, None)
       else (cgroup.V2, None);
     cgroup_New := λ v,
       match v with
       | cgroup.V1 => (None, Some "cgroup v1 is not supported")
       | cgroup.V2 => cgroup.New Demo.host v
       end;
     os_Stat := os_Stat Demo.env;
     unix_Stat := unix_Stat Demo.env;
     lstat_tree := λ p,
       if decide (p = "/dev/broken") then
         Dir [ ("a", File);
               ("b", Dir [("c", LstatErr "permission denied"); ("d", File)]);
               ("e", DirErr "input/output error") ]
       else lstat_tree Demo.env p |}.

End Faulty.

(** * Properties *)

Local Open Scope list_scope.
Local Open Scope Z_scope.

(** ** Paths *)

Example path_Join_cgroup :
  path_Join [rootPath; "/sys/fs/cgroup"; "/system.slice/docker-1.scope"]
  = "/host/sys/fs/cgroup/system.slice/docker-1.scope".
Proof. reflexivity. Qed.

Example path_Join_dotdot : path_Join [rootPath; "/sys/../.."; "x/./y/"] = "/x/y".
Proof. reflexivity. Qed.

Example path_Clean_relative : path_Clean "a/../../b//c/." = "../b/c".
Proof. reflexivity. Qed.

Example path_Join_walk : path_Join ["/dev/dri"; "card0"] = "/dev/dri/card0".
Proof. reflexivity. Qed.

(** ** Device numbers *)

Lemma lor_below (n a b : Z) :
  0 ≤ n → 0 ≤ a < 2 ^ n → 0 ≤ b < 2 ^ n → 0 ≤ Z.lor a b < 2 ^ n.
Proof.
  intros Hn [Ha0 Ha] [Hb0 Hb]. split; [by apply Z.lor_nonneg|].
  destruct (decide (a = 0)) as [->|Hane]; [by rewrite Z.lor_0_l|].
  destruct (decide (b = 0)) as [->|Hbne]; [by rewrite Z.lor_0_r|].
  apply Z.log2_lt_pow2.
  - assert (0 ≤ Z.lor a b) by (by apply Z.lor_nonneg).
    assert (Z.lor a b ≠ 0) by (rewrite Z.lor_eq_0_iff; tauto). lia.
  - rewrite Z.log2_lor by done.
    apply Z.max_lub_lt; apply Z.log2_lt_pow2; lia.
Qed.

Lemma uint32_range z : 0 ≤ uint32 z < 2 ^ 32.
Proof. unfold uint32. apply Z.mod_pos_bound. lia. Qed.

Lemma unix_Major_range dev : 0 ≤ unix_Major dev < 2 ^ 32.
Proof. apply lor_below; [lia | apply uint32_range ..]. Qed.

Lemma unix_Minor_range dev : 0 ≤ unix_Minor dev < 2 ^ 32.
Proof. apply lor_below; [lia | apply uint32_range ..]. Qed.

Lemma int64_small z : 0 ≤ z < 2 ^ 32 → int64 z = z.
Proof. intros Hz. unfold int64. rewrite Z.mod_small; lia. Qed.

(** A bit of a mask of [len] ones that starts at bit [lo]. *)
Lemma testbit_mask (lo len n : Z) :
  0 ≤ lo → 0 ≤ len →
  Z.testbit (Z.shiftl (Z.ones len) lo) n = bool_decide (lo ≤ n < lo + len).
Proof.
  intros Hlo Hlen.
  destruct (decide (n < 0)) as [Hneg|Hn].
  { rewrite Z.testbit_neg_r by done. rewrite bool_decide_eq_false_2; [done|lia]. }
  rewrite Z.shiftl_spec by lia.
  destruct (decide (n < lo)) as [Hlt|Hge].
  - rewrite Z.testbit_neg_r by lia. rewrite bool_decide_eq_false_2; [done|lia].
  - destruct (decide (n - lo < len)) as [Hin|Hout].
    + rewrite Z.ones_spec_low by lia. rewrite bool_decide_eq_true_2; [done|lia].
    + rewrite Z.ones_spec_high by lia. rewrite bool_decide_eq_false_2; [done|lia].
Qed.

Lemma testbit_below (a n i : Z) :
  0 ≤ a < 2 ^ n → n ≤ i → Z.testbit a i = false.
Proof.
  intros [Ha0 Ha] Hi.
  destruct (decide (a = 0)) as [->|Hne]; [apply Z.bits_0|].
  apply Z.bits_above_log2; [done|].
  assert (0 ≤ n).
  { destruct (decide (0 ≤ n)); [done|]. rewrite Z.pow_neg_r in Ha; lia. }
  assert (Z.log2 a < n) by (apply Z.log2_lt_pow2; lia). lia.
Qed.

Ltac bits_of_masks :=
  change 0x00000000000fff00 with (Z.shiftl (Z.ones 12) 8);
  change 0xfffff00000000000 with (Z.shiftl (Z.ones 20) 44);
  change 0x00000000000000ff with (Z.shiftl (Z.ones 8) 0);
  change 0x00000ffffff00000 with (Z.shiftl (Z.ones 24) 20);
  change 0x00000fff with (Z.shiftl (Z.ones 12) 0);
  change 0xfffff000 with (Z.shiftl (Z.ones 20) 12);
  change 0xffffff00 with (Z.shiftl (Z.ones 24) 8).

Ltac bits_step :=
  repeat match goal with
    | |- context [Z.testbit (Z.lor ?a ?b) ?n] => rewrite (Z.lor_spec a b n)
    | |- context [Z.testbit (Z.land ?a ?b) ?n] => rewrite (Z.land_spec a b n)
    | |- context [Z.testbit (Z.shiftl (Z.ones ?len) ?lo) ?n] =>
        first [ rewrite (testbit_mask lo len n) by lia
              | rewrite (Z.testbit_neg_r (Z.shiftl (Z.ones len) lo) n) by lia ]
    | |- context [Z.testbit (Z.shiftr ?a ?k) ?n] =>
        rewrite (Z.shiftr_spec a k n) by lia
    | |- context [Z.testbit (Z.shiftl ?a ?k) ?n] =>
        first [ rewrite (Z.shiftl_spec a k n) by lia
              | rewrite (Z.testbit_neg_r (Z.shiftl a k) n) by lia ]
    end.

Ltac bits_bool :=
  rewrite ?andb_true_r, ?andb_true_l, ?andb_false_r, ?andb_false_l,
    ?orb_false_r, ?orb_false_l, ?orb_true_r, ?orb_true_l.

Ltac bits_cases :=
  repeat match goal with
    | |- context [bool_decide ?P] =>
        first [ rewrite (bool_decide_eq_true_2 P) by lia
              | rewrite (bool_decide_eq_false_2 P) by lia ]
    end;
  bits_bool.

Ltac bits_index i :=
  repeat match goal with
    | |- context [Z.testbit ?a ?n] =>
        lazymatch n with i => fail | _ => idtac end;
        first [ replace n with i by lia
              | rewrite (Z.testbit_neg_r a n) by lia
              | rewrite (testbit_below a 32 n) by lia ]
    end;
  bits_bool.

Lemma uint32_bits z i :
  0 ≤ i → Z.testbit (uint32 z) i = bool_decide (i < 32) && Z.testbit z i.
Proof.
  intros Hi. unfold uint32. destruct (decide (i < 32)).
  - rewrite Z.mod_pow2_bits_low by lia. by rewrite bool_decide_eq_true_2.
  - rewrite Z.mod_pow2_bits_high by lia. by rewrite bool_decide_eq_false_2.
Qed.

Lemma unix_Major_Mkdev M N :
  0 ≤ M < 2 ^ 32 → 0 ≤ N < 2 ^ 32 → unix_Major (unix_Mkdev M N) = M.
Proof.
  intros HM HN. apply Z.bits_inj'. intros i Hi.
  unfold unix_Major, unix_Mkdev. bits_of_masks.
  rewrite Z.lor_spec, !uint32_bits by done.
  destruct (decide (i < 12)); [|destruct (decide (i < 32))];
    bits_step; bits_cases; bits_index i;
    try (rewrite (testbit_below _ 32 i) by lia); done.
Qed.

Lemma unix_Minor_Mkdev M N :
  0 ≤ M < 2 ^ 32 → 0 ≤ N < 2 ^ 32 → unix_Minor (unix_Mkdev M N) = N.
Proof.
  intros HM HN. apply Z.bits_inj'. intros i Hi.
  unfold unix_Minor, unix_Mkdev. bits_of_masks.
  rewrite Z.lor_spec, !uint32_bits by done.
  destruct (decide (i < 8)); [|destruct (decide (i < 32))];
    bits_step; bits_cases; bits_index i;
    try (rewrite (testbit_below _ 32 i) by lia); done.
Qed.

(** ** Joining under the host root *)

Lemma append_String (c : ascii) (a b : string) :
  (String c a ++ b)%string = String c (a ++ b)%string.
Proof. reflexivity. Qed.

Lemma append_empty (b : string) : ("" ++ b)%string = b.
Proof. reflexivity. Qed.

Lemma split_slash_app (cur a b : string) :
  split_slash cur (a ++ String "/" b)%string
  = split_slash cur a ++ split_slash "" b.
Proof.
  revert cur. induction a as [|c a IH]; intros cur;
    rewrite ?append_String, ?append_empty; cbn [split_slash].
  - done.
  - destruct (Ascii.eqb c "/"); by rewrite IH.
Qed.

Lemma fold_clean_elem_plain (l acc : list string) :
  Forall (λ e, e ≠ "..") l →
  fold_left (clean_elem true) l acc
  = rev (filter (λ e, ¬ (e = "" ∨ e = ".")) l) ++ acc.
Proof.
  intros Hl. revert acc. induction Hl as [|e l He _ IH]; intros acc; [done|].
  cbn [fold_left]. rewrite IH. unfold clean_elem.
  rewrite filter_cons. destruct (decide (e = "" ∨ e = ".")) as [Hskip|Hkeep].
  - by rewrite (decide_False (P:=¬ (e = "" ∨ e = "."))) by tauto.
  - rewrite (decide_False (P:=e = "..")) by done.
    rewrite (decide_True (P:=¬ (e = "" ∨ e = "."))) by done.
    cbn [rev]. by rewrite <- app_assoc.
Qed.

Lemma path_Clean_under_host (p' : string) (rest : list string) :
  Forall (λ e, e ≠ "..") rest →
  split_slash "" (String "/" p') = "" :: "host" :: rest →
  HasPrefix (path_Clean (String "/" p')) rootPath = true.
Proof.
  intros Hrest Hsplit. unfold path_Clean. cbn [Ascii.eqb Bool.eqb]. rewrite Hsplit.
  rewrite fold_clean_elem_plain by (repeat constructor; done).
  rewrite app_nil_r, rev_involutive, !filter_cons.
  rewrite decide_False by (intros ?; tauto).
  rewrite decide_True by (intros [?|?]; discriminate).
  destruct (filter _ rest) as [|e out]; [done|].
  cbn [join_slash]. unfold HasPrefix, rootPath.
  rewrite !append_String, !append_empty.
  cbn [String.prefix]. repeat (destruct (ascii_dec _ _); [|done]).
  done.
Qed.

(** The path that [processContainer] hands to the rule applier lies under
    the host root, unless an element of what the resolver returned is
    [..]. *)
Lemma path_Join_under_rootPath (sysfsPath cgroupPath : string) :
  no_dotdot sysfsPath → no_dotdot cgroupPath →
  HasPrefix (path_Join [rootPath; sysfsPath; cgroupPath]) rootPath = true.
Proof.
  unfold no_dotdot. intros Hs Hc. unfold path_Join.
  rewrite !filter_cons, filter_nil. rewrite decide_True by done.
  destruct (decide (sysfsPath ≠ "")) as [Hs0|Hs0];
    destruct (decide (cgroupPath ≠ "")) as [Hc0|Hc0];
    cbn [join_slash]; unfold rootPath;
    rewrite ?append_String, ?append_empty.
  - destruct cgroupPath as [|c cg]; [done|].
    apply (path_Clean_under_host _
             (split_slash "" sysfsPath ++ split_slash "" (String c cg))).
    + by apply Forall_app.
    + cbn [split_slash Ascii.eqb Bool.eqb].
      rewrite ?append_String, ?append_empty. cbn [split_slash Ascii.eqb Bool.eqb].
      by rewrite split_slash_app.
  - destruct sysfsPath as [|c s]; [done|].
    by apply (path_Clean_under_host _ (split_slash "" (String c s))).
  - destruct cgroupPath as [|c cg]; [done|].
    by apply (path_Clean_under_host _ (split_slash "" (String c cg))).
  - by apply (path_Clean_under_host _ []).
Qed.

(** ** The Device Identity Resolver *)

Section Resolver.

Context {Version K : Type}.
Variable env : Env Version K.

Lemma deviceTypeOf_char stat :
  Z.land (Mode stat) S_IFMT = S_IFCHR → deviceTypeOf stat = Some "c".
Proof. unfold deviceTypeOf. intros ->. done. Qed.

Lemma deviceTypeOf_block stat :
  Z.land (Mode stat) S_IFMT = S_IFBLK → deviceTypeOf stat = Some "b".
Proof. unfold deviceTypeOf. intros ->. done. Qed.

Lemma deviceTypeOf_other stat :
  Z.land (Mode stat) S_IFMT ≠ S_IFCHR →
  Z.land (Mode stat) S_IFMT ≠ S_IFBLK →
  deviceTypeOf stat = None.
Proof. unfold deviceTypeOf. intros ??. by repeat case_decide. Qed.

(** The result of [getDeviceInfo] does not depend on the state of the
    cgroup backend, and the call leaves that state alone. *)
Lemma getDeviceInfo_run devicePath k :
  getDeviceInfo env devicePath k =
  match unix_Stat env devicePath with
  | inr err =>
      mkRun (Ok ("", -1, -1, Some err))
        [EvUnixStat devicePath; EvLog (LogError err)] k
  | inl stat =>
      match deviceTypeOf stat with
      | None =>
          mkRun (Ok ("", -1, -1, Some "unsupported device type... aborting"))
            [EvUnixStat devicePath; EvLog LogNeitherCharNorBlock] k
      | Some deviceType =>
          mkRun (Ok (deviceType, unix_Major (Rdev stat), unix_Minor (Rdev stat), None))
            [EvUnixStat devicePath;
             EvLog (LogFoundDevice devicePath deviceType
                      (unix_Major (Rdev stat)) (unix_Minor (Rdev stat)))] k
      end
  end.
Proof.
  unfold getDeviceInfo.
  destruct (unix_Stat env devicePath) as [stat|err]; [|done].
  destruct (deviceTypeOf stat) as [deviceType|]; [|done].
  rewrite !int64_small by (apply unix_Major_range || apply unix_Minor_range).
  done.
Qed.

(** C3.  The Device Identity Resolver on a path whose metadata [stat] it
    can read: with character-device type bits it returns the kind [c] and
    the major and minor numbers of the metadata, with block-device type
    bits the kind [b] and these numbers, and for every other file type
    (regular file, directory, symbolic link, socket, FIFO) the error
    "unsupported device type"; the numbers returned for a device whose
    raw identifier encodes major [M] and minor [N] are [M] and [N]. *)
Theorem getDeviceInfo_resolves (devicePath : string) (stat : Stat_t) (k : K) :
  unix_Stat env devicePath = inl stat →
  let fmt := Z.land (Mode stat) S_IFMT in
  let r := result (getDeviceInfo env devicePath k) in
  (fmt = S_IFCHR →
     r = Ok ("c", unix_Major (Rdev stat), unix_Minor (Rdev stat), None))
  ∧ (fmt = S_IFBLK →
     r = Ok ("b", unix_Major (Rdev stat), unix_Minor (Rdev stat), None))
  ∧ (fmt ≠ S_IFCHR → fmt ≠ S_IFBLK →
     r = Ok ("", -1, -1, Some "unsupported device type... aborting"))
  ∧ (fmt ∈ [S_IFREG; S_IFDIR; S_IFLNK; S_IFSOCK; S_IFIFO] →
     r = Ok ("", -1, -1, Some "unsupported device type... aborting"))
  ∧ (∀ M N, 0 ≤ M < 2 ^ 32 → 0 ≤ N < 2 ^ 32 → Rdev stat = unix_Mkdev M N →
     unix_Major (Rdev stat) = M ∧ unix_Minor (Rdev stat) = N).
Proof.
  intros Hstat fmt r. subst r. rewrite getDeviceInfo_run, Hstat.
  split; [|split; [|split; [|split; [|intros M N HM HN HR; split]]]].
  - intros Hc. by rewrite deviceTypeOf_char.
  - intros Hb. by rewrite deviceTypeOf_block.
  - intros Hc Hb. by rewrite deviceTypeOf_other.
  - intros Hin. rewrite deviceTypeOf_other; [done| |].
    + intros Heq. fold fmt in Heq. rewrite Heq in Hin.
      repeat (apply elem_of_cons in Hin as [Hin|Hin]; [discriminate Hin|]).
      by apply elem_of_nil in Hin.
    + intros Heq. fold fmt in Heq. rewrite Heq in Hin.
      repeat (apply elem_of_cons in Hin as [Hin|Hin]; [discriminate Hin|]).
      by apply elem_of_nil in Hin.
  - rewrite HR. by apply unix_Major_Mkdev.
  - rewrite HR. by apply unix_Minor_Mkdev.
Qed.

End Resolver.

Lemma getDeviceInfo_resolves_witness :
  unix_Stat Demo.env "/dev/dri/card0" = inl Demo.card0_stat
  ∧ result (getDeviceInfo Demo.env "/dev/dri/card0" cgroup.empty_state)
    = Ok ("c", 226, 0, None).
Proof.
  split; [reflexivity|].
  destruct (getDeviceInfo_resolves Demo.env "/dev/dri/card0" Demo.card0_stat
              cgroup.empty_state eq_refl) as [Hchar _].
  exact (Hchar eq_refl).
Defined.

(** ** The monad *)

Section Runs.

Context {Version K : Type}.

Local Abbreviation M := (M Version K).

Lemma bind_run {A B} (m : M A) (f : A → M B) (k : K) :
  (m ≫= f) k =
  match result (m k) with
  | Ok a => mkRun (result (f a (final (m k))))
                  (trace (m k) ++ trace (f a (final (m k))))
                  (final (f a (final (m k))))
  | Crashed c => mkRun (Crashed c) (trace (m k)) (final (m k))
  end.
Proof. reflexivity. Qed.

Lemma run_eta {A} (r : Run K Version A) :
  r = mkRun (result r) (trace r) (final r).
Proof. by destruct r. Qed.

End Runs.

(** ** The loop over the mounts of a container *)

Section Mounts.

Context {Version K : Type}.
Variable env : Env Version K.

Local Abbreviation M := (M Version K).

Lemma lies_under_dev_HasPrefix (p : string) :
  lies_under_dev p = true → HasPrefix p "/dev" = true.
Proof.
  unfold lies_under_dev, HasPrefix. intros [Heq|Hpre]%orb_true_iff.
  - apply bool_decide_eq_true in Heq. by subst p.
  - destruct p as [|c1 [|c2 [|c3 [|c4 rest]]]]; cbn [String.prefix] in Hpre;
      repeat match type of Hpre with
             | context [ascii_dec ?a ?b] =>
                 destruct (ascii_dec a b); [subst|discriminate]
             end; try discriminate.
    by destruct rest.
Qed.

Lemma mountBody_no_prefix id info pid version mount k :
  HasPrefix (Source mount) "/dev" = false →
  mountBody env id info pid version mount k
  = mkRun (Ok Continue) (skipped_lines id info mount) k.
Proof. intros Hpre. unfold mountBody. by rewrite Hpre. Qed.

Lemma rangeMounts_cons (body : MountPoint → M LoopCtl) mount rest k :
  rangeMounts body (mount :: rest) k
  = (c ← body mount; match c with
                     | Continue => rangeMounts body rest
                     | Break => mret tt
                     end) k.
Proof. reflexivity. Qed.

Lemma rangeMounts_skipped id info pid version pre rest k :
  Forall (λ m, HasPrefix (Source m) "/dev" = false) pre →
  let r := rangeMounts (mountBody env id info pid version) rest k in
  rangeMounts (mountBody env id info pid version) (pre ++ rest) k
  = mkRun (result r) (flat_map (skipped_lines id info) pre ++ trace r) (final r).
Proof.
  intros Hpre r. subst r. induction Hpre as [|m pre Hm Hpre IH]; simpl app.
  - simpl. apply run_eta.
  - rewrite rangeMounts_cons, bind_run, mountBody_no_prefix by done.
    cbn [result final trace]. rewrite IH. done.
Qed.

(** The run of the loop body at a mount whose cgroup path cannot be
    resolved. *)
Lemma mountBody_unresolved id info pid version mount api cg sysfs e k :
  HasPrefix (Source mount) "/dev" = true →
  (cgroup_New env version).1 = Some api →
  GetDeviceCGroupMountPath api "/" pid = (cg, sysfs, Some e) →
  mountBody env id info pid version mount k
  = mkRun (Ok Break)
      [EvLog (LogMountRequested id (Pid (State info)) (Source mount)
                (Destination mount));
       EvNew version;
       EvGetDeviceCGroupMountPath "/" pid;
       EvLog (LogError e)] k.
Proof.
  intros Hpre Hnew Hres. unfold mountBody. rewrite Hpre. simpl negb. cbv iota.
  destruct (cgroup_New env version) as [api' newErr]. simpl in Hnew. subst api'.
  rewrite bind_run. simpl. rewrite Hres. done.
Qed.

End Mounts.

(** ** Mounts outside the device namespace *)

Section DeviceNamespace.

Context {Version K : Type}.
Variable env : Env Version K.

(** C6, as amended.  A mount whose source does not begin with the string
    [/dev], which no path under [/dev] does, is not passed to the
    resolver and applier pipeline: the loop body writes its two log lines
    and goes on to the next mount, with no call to the file system or to
    the cgroup backend. *)
Theorem mount_without_dev_prefix_skipped (id : string) (info : ContainerJSON)
    (pid : Z) (version : Version) (mount : MountPoint) (k : K) :
  HasPrefix (Source mount) "/dev" = false →
  let r := mountBody env id info pid version mount k in
  lies_under_dev (Source mount) = false
  ∧ r = mkRun (Ok Continue) (skipped_lines id info mount) k
  ∧ resolver_calls (trace r) = []
  ∧ backend_calls (trace r) = []
  ∧ accessed_paths (trace r) = [].
Proof.
  intros Hpre r. split.
  - destruct (lies_under_dev (Source mount)) eqn:Hu; [|done].
    apply lies_under_dev_HasPrefix in Hu. congruence.
  - subst r. rewrite mountBody_no_prefix by done. done.
Qed.

End DeviceNamespace.

Lemma mount_without_dev_prefix_skipped_witness :
  HasPrefix (Source Demo.data) "/dev" = false
  ∧ resolver_calls
      (trace (mountBody Demo.env Demo.desktop
                {| State := {| Pid := 4242 |}; Mounts := [Demo.data] |}
                4242 cgroup.V2 Demo.data cgroup.empty_state)) = [].
Proof.
  split; [reflexivity|].
  apply (mount_without_dev_prefix_skipped Demo.env Demo.desktop
           {| State := {| Pid := 4242 |}; Mounts := [Demo.data] |}
           4242 cgroup.V2 Demo.data cgroup.empty_state).
  reflexivity.
Defined.

(** C6 fails as stated: [/devices/disk0] does not lie under [/dev], and the
    daemon resolves it and hands its rule to the cgroup backend. *)
Lemma mount_beside_dev_reaches_pipeline :
  ContainerInspect Demo.env Demo.legacy
    = inl {| State := {| Pid := 5151 |}; Mounts := [Demo.disk0] |}
  ∧ Source Demo.disk0 = "/devices/disk0"
  ∧ lies_under_dev (Source Demo.disk0) = false
  ∧ resolver_calls
      (trace (processContainer Demo.env Demo.legacy cgroup.empty_state))
    = ["/devices/disk0"]
  ∧ backend_calls
      (trace (processContainer Demo.env Demo.legacy cgroup.empty_state))
    = [("/host/sys/fs/cgroup/docker/aaaaaaaaaabbbbbbbbbb",
        [{| Access := "rwm"; Major := Some 8; Minor := Some 16;
            Type_ := "b"; Allow := true |}])].
Proof. repeat split; vm_compute; reflexivity. Qed.

(** ** Failures of the container runtime *)

Section RuntimeFailures.

Context {Version K : Type}.
Variable env : Env Version K.

(** C7, as amended.  A failure to inspect the container of a live start
    event is a panic: the daemon ends with the error, nothing is logged
    and the events behind it are not processed.  An error on the event
    stream is logged and ends the daemon through [log.Fatal].  In the
    scan of the existing containers a failure to list or to inspect is a
    panic as well. *)
Theorem runtime_failures_end_daemon (id : string) (err : error)
    (rest : list StreamItem) (k : K) :
  ContainerInspect env id = inr err →
  listenForMounts env (StreamStart id :: rest) k
    = mkRun (Crashed (PanicError err)) [EvContainerInspect id] k
  ∧ (∀ streamErr,
       listenForMounts env (StreamError streamErr :: rest) k
       = mkRun (Crashed ExitFatal) [EvLog (LogError streamErr)] k)
  ∧ (∀ listErr, ContainerList env = inr listErr →
       checkExistingContainers env k
       = mkRun (Crashed (PanicError listErr)) [EvContainerList] k)
  ∧ (∀ image others,
       ContainerList env = inl ({| ID := id; Image := image |} :: others) →
       (10 ≤ String.length id)%nat →
       checkExistingContainers env k
       = mkRun (Crashed (PanicError err))
           [EvContainerList;
            EvLog (LogCheckingExisting (substring 0 10 id) image);
            EvContainerInspect id] k).
Proof.
  intros Hinspect.
  assert (Hpc : processContainer env id k
                = mkRun (Crashed (PanicError err)) [EvContainerInspect id] k).
  { unfold processContainer. by rewrite Hinspect. }
  split; [|split; [|split]].
  - cbn [listenForMounts]. rewrite bind_run, Hpc. done.
  - done.
  - intros listErr Hlist. unfold checkExistingContainers. by rewrite Hlist.
  - intros image others Hlist Hlen. unfold checkExistingContainers.
    rewrite Hlist. cbn [rangeContainers ID Image].
    rewrite decide_False by lia.
    rewrite !bind_run. cbn [emit log result final trace].
    rewrite Hpc. done.
Qed.

End RuntimeFailures.

Lemma runtime_failures_end_daemon_witness :
  ContainerInspect Demo.env "ghost" = inr "No such container"
  ∧ listenForMounts Demo.env [StreamStart "ghost"; StreamStart Demo.desktop]
      cgroup.empty_state
    = mkRun (Crashed (PanicError "No such container"))
        [EvContainerInspect "ghost"] cgroup.empty_state.
Proof.
  split; [reflexivity|].
  apply (runtime_failures_end_daemon Demo.env "ghost" "No such container"
           [StreamStart Demo.desktop] cgroup.empty_state).
  reflexivity.
Defined.

(** C7 fails as stated: the start event of a container that cannot be
    inspected ends the daemon with a panic; the failure is not logged and
    the next event, for a container that can be inspected, is never
    looked at. *)
Lemma live_inspect_failure_is_fatal :
  ContainerInspect Demo.env "ghost" = inr "No such container"
  ∧ (∃ info, ContainerInspect Demo.env Demo.desktop = inl info)
  ∧ ¬ returns (listenForMounts Demo.env
                 [StreamStart "ghost"; StreamStart Demo.desktop]
                 cgroup.empty_state)
  ∧ trace (listenForMounts Demo.env
             [StreamStart "ghost"; StreamStart Demo.desktop]
             cgroup.empty_state)
    = [EvContainerInspect "ghost"].
Proof.
  split; [reflexivity|]. split; [by eexists|]. split; [|reflexivity].
  intros [a Ha]. vm_compute in Ha. discriminate Ha.
Qed.

(** ** A cgroup path that cannot be resolved *)

Section PathResolution.

Context {Version K : Type}.
Variable env : Env Version K.

(** The lines [processContainer] writes before it looks at the mounts. *)
Lemma processContainer_run id info version k :
  ContainerInspect env id = inl info →
  GetDeviceCGroupVersion env "/" (Pid (State info)) = (version, None) →
  let pid := Pid (State info) in
  let r := rangeMounts (mountBody env id info pid version) (Mounts info) k in
  processContainer env id k
  = mkRun (result r)
      ([EvContainerInspect id;
        EvGetDeviceCGroupVersion "/" pid;
        EvLog (LogCgroupVersion pid version);
        EvLog (LogCheckingMounts pid)] ++ trace r)
      (final r).
Proof.
  intros Hinspect Hversion pid r. subst pid. unfold processContainer.
  rewrite Hinspect. cbv zeta. rewrite Hversion.
  rewrite !bind_run. cbn [emit log result final trace]. fold r.
  by destruct (result r).
Qed.

Lemma rangeContainers_cons (c : Container) (cs : list Container) (k : K) :
  (10 ≤ String.length (ID c))%nat →
  let r := processContainer env (ID c) k in
  rangeContainers env (c :: cs) k
  = match result r with
    | Ok _ =>
        let r' := rangeContainers env cs (final r) in
        mkRun (result r')
          (EvLog (LogCheckingExisting (substring 0 10 (ID c)) (Image c))
           :: trace r ++ trace r')
          (final r')
    | Crashed c' =>
        mkRun (Crashed c')
          (EvLog (LogCheckingExisting (substring 0 10 (ID c)) (Image c))
           :: trace r)
          (final r)
    end.
Proof.
  intros Hlen r. cbn [rangeContainers]. rewrite decide_False by lia.
  rewrite !bind_run. cbn [log emit result final trace]. fold r.
  by destruct (result r).
Qed.

(** C4, as amended.  A cgroup path-resolution failure at a mount is
    logged and ends the loop over the mounts of that container: the
    mounts behind it are not looked at.  [processContainer] returns, and
    the scan goes on with the remaining containers. *)
Theorem path_resolution_failure_ends_mount_loop
    (id : string) (info : ContainerJSON) (version : Version)
    (api : Interface K) (cg sysfs : string) (e : error)
    (pre : list MountPoint) (mount : MountPoint) (rest : list MountPoint)
    (k : K) :
  ContainerInspect env id = inl info →
  GetDeviceCGroupVersion env "/" (Pid (State info)) = (version, None) →
  Mounts info = pre ++ mount :: rest →
  Forall (λ m, HasPrefix (Source m) "/dev" = false) pre →
  HasPrefix (Source mount) "/dev" = true →
  (cgroup_New env version).1 = Some api →
  GetDeviceCGroupMountPath api "/" (Pid (State info)) = (cg, sysfs, Some e) →
  let pid := Pid (State info) in
  let failure :=
    [EvLog (LogMountRequested id pid (Source mount) (Destination mount));
     EvNew version;
     EvGetDeviceCGroupMountPath "/" pid;
     EvLog (LogError e)] in
  let container :=
    [EvContainerInspect id;
     EvGetDeviceCGroupVersion "/" pid;
     EvLog (LogCgroupVersion pid version);
     EvLog (LogCheckingMounts pid)]
    ++ flat_map (skipped_lines id info) pre ++ failure in
  rangeMounts (mountBody env id info pid version) (mount :: rest) k
    = mkRun (Ok tt) failure k
  ∧ processContainer env id k = mkRun (Ok tt) container k
  ∧ (∀ image others, (10 ≤ String.length id)%nat →
       let r := rangeContainers env others k in
       rangeContainers env ({| ID := id; Image := image |} :: others) k
       = mkRun (result r)
           (EvLog (LogCheckingExisting (substring 0 10 id) image)
            :: container ++ trace r)
           (final r)).
Proof.
  intros Hinspect Hversion Hmounts Hpre Hdev Hnew Hres pid failure container.
  assert (Hloop : rangeMounts (mountBody env id info pid version)
                    (mount :: rest) k = mkRun (Ok tt) failure k).
  { rewrite rangeMounts_cons, bind_run.
    by rewrite (mountBody_unresolved env id info pid version mount api cg sysfs e). }
  assert (Hpc : processContainer env id k = mkRun (Ok tt) container k).
  { rewrite (processContainer_run id info version) by done. fold pid.
    rewrite Hmounts, rangeMounts_skipped by done. rewrite Hloop. done. }
  split; [done|]. split; [done|].
  intros image others Hlen r.
  rewrite rangeContainers_cons by done. cbn [ID Image]. rewrite Hpc. done.
Qed.


(** The backend value is called whatever the error: a nil backend ends
    the daemon at the first mount under [/dev]. *)
Lemma mountBody_nil_backend id info pid version newErr mount k :
  HasPrefix (Source mount) "/dev" = true →
  cgroup_New env version = (None, newErr) →
  mountBody env id info pid version mount k
  = mkRun (Crashed PanicNilInterface)
      [EvLog (LogMountRequested id (Pid (State info)) (Source mount)
                (Destination mount));
       EvNew version] k.
Proof. intros Hdev Hnew. unfold mountBody. by rewrite Hdev, Hnew. Qed.

End PathResolution.

Lemma path_resolution_failure_ends_mount_loop_witness :
  processContainer Demo.env Demo.orphan cgroup.empty_state
  = mkRun (Ok tt)
      [EvContainerInspect Demo.orphan;
       EvGetDeviceCGroupVersion "/" 77;
       EvLog (LogCgroupVersion 77 cgroup.V2);
       EvLog (LogCheckingMounts 77);
       EvLog (LogMountRequested Demo.orphan 77 "/dev/dri" "/dev/dri");
       EvNew cgroup.V2;
       EvGetDeviceCGroupMountPath "/" 77;
       EvLog (LogError "no cgroup for process")]
      cgroup.empty_state.
Proof.
  apply (path_resolution_failure_ends_mount_loop Demo.env Demo.orphan
           {| State := {| Pid := 77 |}; Mounts := [Demo.dri; Demo.sda] |}
           cgroup.V2 (cgroup.backend Demo.host cgroup.V2) "" ""
           "no cgroup for process" [] Demo.dri [Demo.sda] cgroup.empty_state);
    try reflexivity.
  constructor.
Defined.

(** C4 fails as stated: the cgroup path of the container cannot be
    resolved at its first mount [/dev/dri]; the error is logged and the
    loop ends, so that the second mount [/dev/sda] of the same container is
    never looked at. *)
Lemma path_resolution_failure_skips_remaining_mounts :
  ContainerInspect Demo.env Demo.orphan
    = inl {| State := {| Pid := 77 |}; Mounts := [Demo.dri; Demo.sda] |}
  ∧ trace (processContainer Demo.env Demo.orphan cgroup.empty_state)
    = [EvContainerInspect Demo.orphan;
       EvGetDeviceCGroupVersion "/" 77;
       EvLog (LogCgroupVersion 77 cgroup.V2);
       EvLog (LogCheckingMounts 77);
       EvLog (LogMountRequested Demo.orphan 77 "/dev/dri" "/dev/dri");
       EvNew cgroup.V2;
       EvGetDeviceCGroupMountPath "/" 77;
       EvLog (LogError "no cgroup for process")]
  ∧ EvLog (LogMountRequested Demo.orphan 77 (Source Demo.sda)
             (Destination Demo.sda))
    ∉ trace (processContainer Demo.env Demo.orphan cgroup.empty_state).
Proof.
  split; [reflexivity|]. split; [reflexivity|].
  intros Hin. vm_compute in Hin.
  repeat (apply elem_of_cons in Hin as [Hin|Hin]; [discriminate Hin|]).
  by apply elem_of_nil in Hin.
Qed.

(** ** The pipeline [applyDeviceRules] *)

Section Pipeline.

Context {Version K : Type}.
Variable env : Env Version K.

Local Abbreviation M := (M Version K).

(** The run of [applyDeviceRules], case by case. *)
Lemma applyDeviceRules_run (api : Interface K) (mountPath cgroupPath : string)
    (pid : Z) (k : K) :
  applyDeviceRules env api mountPath cgroupPath pid k =
  match unix_Stat env mountPath with
  | inr err =>
      mkRun (Ok (Some err))
        [EvUnixStat mountPath; EvLog (LogError err); EvLog (LogError err)] k
  | inl stat =>
      match deviceTypeOf stat with
      | None =>
          mkRun (Ok (Some "unsupported device type... aborting"))
            [EvUnixStat mountPath; EvLog LogNeitherCharNorBlock;
             EvLog (LogError "unsupported device type... aborting")] k
      | Some deviceType =>
          let rule := rule_of_stat deviceType stat in
          let out := AddDeviceRules api cgroupPath [rule] k in
          mkRun (Ok out.1)
            ([EvUnixStat mountPath;
              EvLog (LogFoundDevice mountPath deviceType
                       (unix_Major (Rdev stat)) (unix_Minor (Rdev stat)));
              EvLog (LogAddingRule pid cgroupPath);
              EvAddDeviceRules cgroupPath [rule]]
             ++ error_lines out.1)
            out.2
      end
  end.
Proof.
  unfold applyDeviceRules. rewrite bind_run, getDeviceInfo_run.
  destruct (unix_Stat env mountPath) as [stat|err]; [|done].
  destruct (deviceTypeOf stat) as [deviceType|]; [|done].
  cbn [result final trace]. rewrite !bind_run. cbn [log emit result final trace].
  unfold call_AddDeviceRules, rule_of_stat, Ptr.
  destruct (AddDeviceRules api cgroupPath _ k) as [[e|] k']; done.
Qed.

Lemma applyDeviceRules_returns api mountPath cgroupPath pid k :
  ∃ err, result (applyDeviceRules env api mountPath cgroupPath pid k) = Ok err.
Proof.
  rewrite applyDeviceRules_run.
  destruct (unix_Stat env mountPath) as [stat|err]; [|by eexists].
  destruct (deviceTypeOf stat); by eexists.
Qed.

Lemma applyDeviceRules_resolver_calls api mountPath cgroupPath pid k :
  resolver_calls (trace (applyDeviceRules env api mountPath cgroupPath pid k))
  = [mountPath].
Proof.
  rewrite applyDeviceRules_run.
  destruct (unix_Stat env mountPath) as [stat|err]; [|done].
  destruct (deviceTypeOf stat); [|done].
  cbn [trace]. by destruct (AddDeviceRules _ _ _ _).1.
Qed.

Lemma logIfError_run (err : option error) (k : K) :
  logIfError (Version:=Version) err k
  = mkRun (Ok tt) (error_lines err) k.
Proof. by destruct err. Qed.

(** The function of the walk at a file that is not a directory: one run
    of the pipeline; it returns nil whatever the pipeline returns. *)
Lemma walkFn_file api cgroupPath pid path k :
  let r := applyDeviceRules env api path cgroupPath pid k in
  walkFn env api cgroupPath pid path (Some {| IsDir := false |}) None k
  = mkRun (Ok None)
      (trace r ++ match result r with
                  | Ok err => error_lines err
                  | Crashed _ => []
                  end)
      (final r).
Proof.
  intros r. unfold walkFn. cbn [IsDir]. rewrite bind_run. fold r.
  destruct (applyDeviceRules_returns api path cgroupPath pid k) as [err Herr].
  fold r in Herr. rewrite Herr. cbv iota beta.
  rewrite bind_run, logIfError_run. cbn [result trace final].
  by rewrite app_nil_r.
Qed.

Lemma walkFn_dir api cgroupPath pid path k :
  walkFn env api cgroupPath pid path (Some {| IsDir := true |}) None k
  = mkRun (Ok None) [] k.
Proof. reflexivity. Qed.

Lemma walkFn_err api cgroupPath pid path info e k :
  walkFn env api cgroupPath pid path info (Some e) k = mkRun (Ok (Some e)) [] k.
Proof. reflexivity. Qed.

End Pipeline.

(** ** The walk over a mounted directory *)

Lemma FsTree_ind (P : FsTree → Prop) :
  (∀ e, P (LstatErr e)) →
  P File →
  (∀ e, P (DirErr e)) →
  (∀ entries, Forall (λ entry, P entry.2) entries → P (Dir entries)) →
  ∀ t, P t.
Proof.
  intros HL HF HE HD.
  refine (fix IH (t : FsTree) : P t :=
            match t with
            | LstatErr e => HL e
            | File => HF
            | DirErr e => HE e
            | Dir entries =>
                HD entries
                  ((fix all (l : list (string * FsTree))
                      : Forall (λ entry, P entry.2) l :=
                      match l with
                      | [] => Forall_nil_2 _
                      | entry :: rest => Forall_cons_2 _ _ _ (IH entry.2) (all rest)
                      end) entries)
            end).
Qed.

Section Walk.

Context {Version K : Type}.
Variable env : Env Version K.

Local Abbreviation M := (M Version K).

Lemma rangeNames_cons {X} (body : X → M (option error)) name rest k :
  rangeNames body (name :: rest) k
  = (err ← body name;
     match err with
     | Some e => mret (Some e)
     | None => rangeNames body rest
     end) k.
Proof. reflexivity. Qed.

Lemma walk_Dir (fn : @WalkFunc Version K) path entries k :
  walk fn path (Dir entries) k
  = (err1 ← fn path (Some {| IsDir := true |}) None;
     match err1 with
     | Some e => mret (Some e)
     | None =>
         rangeNames (λ entry, walk fn (path_Join [path; entry.1]) entry.2)
           entries
     end) k.
Proof. reflexivity. Qed.

Lemma resolver_calls_app (tr1 tr2 : list (Event Version)) :
  resolver_calls (tr1 ++ tr2) = resolver_calls tr1 ++ resolver_calls tr2.
Proof. apply omap_app. Qed.

Lemma resolver_calls_error_lines (err : option error) :
  resolver_calls (error_lines (Version:=Version) err) = [].
Proof. by destruct err. Qed.

Variable api : Interface K.
Variable cgroupPath : string.
Variable pid : Z.

(** What a walk with the function of [processContainer] does: it
    returns; on a readable tree it returns nil; when it returns nil it
    has run the pipeline on each file beneath the root, once and in
    order; in every case the files it has run it on are the first of
    them. *)
Lemma walk_visits t :
  ∀ path k, let r := walk (walkFn env api cgroupPath pid) path t k in
    (∃ o, result r = Ok o)
    ∧ (readable t = true → result r = Ok None)
    ∧ (result r = Ok None → resolver_calls (trace r) = files_beneath path t)
    ∧ resolver_calls (trace r) `prefix_of` files_beneath path t.
Proof.
  induction t as [e| |e|entries IH] using FsTree_ind; intros path k r; subst r.
  - cbn [walk]. rewrite walkFn_err. cbn. repeat split; try done. by eexists.
  - cbn [walk]. rewrite walkFn_file. cbn [result trace final].
    set (r := applyDeviceRules env api path cgroupPath pid k).
    assert (Hrc : resolver_calls
                    (trace r ++ match result r with
                                | Ok err => error_lines err
                                | Crashed _ => []
                                end) = [path]).
    { subst r. rewrite resolver_calls_app, applyDeviceRules_resolver_calls.
      destruct (result _) as [err|]; by rewrite ?resolver_calls_error_lines. }
    rewrite Hrc. repeat split; try done. by eexists.
  - cbn [walk]. rewrite walkFn_err. cbn. repeat split; try done. by eexists.
  - rewrite walk_Dir, bind_run, walkFn_dir. cbn [result trace final app].
    cbn [readable files_beneath].
    set (body := λ entry : string * FsTree,
           walk (walkFn env api cgroupPath pid) (path_Join [path; entry.1]) entry.2).
    set (files := λ entry : string * FsTree,
           files_beneath (path_Join [path; entry.1]) entry.2).
    assert (Hloop : ∀ k', let r := rangeNames body entries k' in
              (∃ o, result r = Ok o)
              ∧ (forallb (λ entry, readable entry.2) entries = true →
                 result r = Ok None)
              ∧ (result r = Ok None →
                 resolver_calls (trace r) = concat (map files entries))
              ∧ resolver_calls (trace r) `prefix_of` concat (map files entries)).
    { clear k. induction IH as [|entry rest Hentry _ IHrest]; intros k' r.
      - subst r. cbn. repeat split; try done. by eexists.
      - subst r. rewrite rangeNames_cons, bind_run.
        destruct (Hentry (path_Join [path; entry.1]) k')
          as ([o Ho] & Hread & Hnil & Hpre).
        fold (body entry) in Ho, Hread, Hnil, Hpre.
        rewrite Ho. cbn [map concat forallb]. destruct o as [e|].
        + cbn [result trace final mret M_ret]. rewrite app_nil_r.
          split; [by eexists|]. split; [|split; [done|]].
          * intros [Hr _]%andb_true_iff. specialize (Hread Hr). congruence.
          * by apply prefix_app_r.
        + destruct (IHrest (final (body entry k')))
            as ([o' Ho'] & Hread' & Hnil' & Hpre').
          cbn [result trace final]. rewrite resolver_calls_app, (Hnil Ho).
          fold (files entry).
          split; [by eexists|]. split; [|split].
          * intros [_ Hr]%andb_true_iff. by apply Hread'.
          * intros Hres. by rewrite (Hnil' Hres).
          * by apply prefix_app. }
    destruct (Hloop k) as (Hret & Hread & Hnil & Hpre).
    destruct (rangeNames body entries k) as [res tr k'']. cbn in *. done.
Qed.

Lemma filepath_Walk_run root (fn : @WalkFunc Version K) k :
  let r := walk fn root (lstat_tree env root) k in
  filepath_Walk env root fn k
  = mkRun (result r) (EvWalk root :: trace r) (final r).
Proof.
  intros r. unfold filepath_Walk. rewrite bind_run. cbn. fold r.
  by destruct (result r).
Qed.

End Walk.

Section MountPipeline.

Context {Version K : Type}.
Variable env : Env Version K.

(** The run of the loop body at a mount that begins with [/dev], whose
    cgroup path is resolved and whose source [os.Stat] can read. *)
Lemma mountBody_resolved id info pid version mount api cg sysfs fileInfo k :
  HasPrefix (Source mount) "/dev" = true →
  (cgroup_New env version).1 = Some api →
  GetDeviceCGroupMountPath api "/" pid = (cg, sysfs, None) →
  os_Stat env (Source mount) = inl fileInfo →
  let cgroupPath := path_Join [rootPath; sysfs; cg] in
  let inner :=
    if IsDir fileInfo
    then filepath_Walk env (Source mount) (walkFn env api cgroupPath pid) k
    else applyDeviceRules env api (Source mount) cgroupPath pid k in
  let before :=
    [EvLog (LogMountRequested id (Pid (State info)) (Source mount)
              (Destination mount));
     EvNew version;
     EvGetDeviceCGroupMountPath "/" pid;
     EvLog (LogCgroupPath pid cgroupPath);
     EvOsStat (Source mount)] in
  mountBody env id info pid version mount k
  = match result inner with
    | Ok err =>
        mkRun (Ok Continue) (before ++ trace inner ++ error_lines err) (final inner)
    | Crashed c => mkRun (Crashed c) (before ++ trace inner) (final inner)
    end.
Proof.
  intros Hdev Hnew Hres Hstat cgroupPath inner before.
  unfold mountBody. rewrite Hdev. cbn [negb].
  destruct (cgroup_New env version) as [api' newErr]. cbn in Hnew. subst api'.
  rewrite !bind_run. cbn [log emit result final trace]. rewrite Hres.
  rewrite !bind_run. cbn [log emit result final trace]. rewrite Hstat.
  fold cgroupPath. subst inner. destruct (IsDir fileInfo).
  - rewrite bind_run.
    destruct (result (filepath_Walk _ _ _ _)) as [err|c]; [|done].
    rewrite bind_run, logIfError_run. cbn [result final trace mret M_ret].
    by rewrite app_nil_r.
  - rewrite bind_run.
    destruct (result (applyDeviceRules _ _ _ _ _ _)) as [err|c]; [|done].
    rewrite bind_run, logIfError_run. cbn [result final trace mret M_ret].
    by rewrite app_nil_r.
Qed.

(** C8.  At a mount that begins with [/dev], with its cgroup path
    resolved: when the source is a directory the loop walks it and runs
    the pipeline once on each non-directory file beneath it, in the order
    of the walk, and on no directory; when it is not a directory the
    pipeline runs once, on the source itself.  Where a part of the
    directory cannot be read, the walk ends there and the pipeline has
    run on the files found before. *)
Theorem pipeline_once_per_file (id : string) (info : ContainerJSON) (pid : Z)
    (version : Version) (mount : MountPoint) (api : Interface K)
    (cg sysfs : string) (fileInfo : FileInfo) (k : K) :
  HasPrefix (Source mount) "/dev" = true →
  (cgroup_New env version).1 = Some api →
  GetDeviceCGroupMountPath api "/" pid = (cg, sysfs, None) →
  os_Stat env (Source mount) = inl fileInfo →
  let r := mountBody env id info pid version mount k in
  let tree := lstat_tree env (Source mount) in
  result r = Ok Continue
  ∧ (IsDir fileInfo = false → resolver_calls (trace r) = [Source mount])
  ∧ (IsDir fileInfo = true → readable tree = true →
     resolver_calls (trace r) = files_beneath (Source mount) tree)
  ∧ (IsDir fileInfo = true →
     resolver_calls (trace r) `prefix_of` files_beneath (Source mount) tree).
Proof.
  intros Hdev Hnew Hres Hstat r tree. subst r.
  rewrite (mountBody_resolved id info pid version mount api cg sysfs fileInfo)
    by done.
  destruct (IsDir fileInfo).
  - rewrite filepath_Walk_run. cbn [result trace final]. fold tree.
    destruct (walk_visits env api (path_Join [rootPath; sysfs; cg]) pid tree
                (Source mount) k) as ([o Ho] & Hread & Hnil & Hpre).
    rewrite Ho. cbn [result trace].
    assert (Hrc : ∀ tr, resolver_calls
              ([EvLog (LogMountRequested id (Pid (State info)) (Source mount)
                         (Destination mount));
                EvNew version; EvGetDeviceCGroupMountPath "/" pid;
                EvLog (LogCgroupPath pid (path_Join [rootPath; sysfs; cg]));
                EvOsStat (Source mount)] ++ (EvWalk (Source mount) :: tr)
               ++ error_lines o) = resolver_calls tr).
    { intros tr. rewrite !resolver_calls_app, resolver_calls_error_lines.
      cbn. by rewrite app_nil_r. }
    rewrite Hrc. split; [done|]. split; [done|]. split; [|done].
    intros _ Hreadable. apply Hnil. by apply Hread.
  - destruct (applyDeviceRules_returns env api (Source mount)
                (path_Join [rootPath; sysfs; cg]) pid k) as [err Herr].
    rewrite Herr. cbn [result trace].
    rewrite !resolver_calls_app, resolver_calls_error_lines,
      applyDeviceRules_resolver_calls.
    done.
Qed.

End MountPipeline.

Lemma pipeline_once_per_file_witness :
  resolver_calls
    (trace (mountBody Demo.env Demo.desktop
              {| State := {| Pid := 4242 |}; Mounts := [Demo.dri] |}
              4242 cgroup.V2 Demo.dri cgroup.empty_state))
  = ["/dev/dri/README"; "/dev/dri/card0"; "/dev/dri/renderD128"].
Proof.
  apply (pipeline_once_per_file Demo.env Demo.desktop
           {| State := {| Pid := 4242 |}; Mounts := [Demo.dri] |}
           4242 cgroup.V2 Demo.dri (cgroup.backend Demo.host cgroup.V2)
           "/docker/0123456789abcdef0123" "/sys/fs/cgroup"
           {| IsDir := true |} cgroup.empty_state);
    reflexivity.
Defined.

(** ** What every run of the daemon does *)

Section TameRuns.

Context {Version K : Type}.
Variable env : Env Version K.

Local Abbreviation M := (M Version K).

Lemma do_calls_app (cs1 cs2 : list (@BackendCall K)) (k : K) :
  do_calls (cs1 ++ cs2) k = do_calls cs2 (do_calls cs1 k).
Proof. apply foldl_app. Qed.

Lemma Tame_ret {A} (a : A) : Tame env (mret a : M A).
Proof. exists [], (Ok a). split; [constructor|]. intros k. by repeat split. Qed.

Lemma Tame_crash {A} (c : Crash) : Tame env (crash c : M A).
Proof. exists [], (Crashed c). split; [constructor|]. intros k. by repeat split. Qed.

Lemma Tame_emit (e : Event Version) : expected env e → Tame env (emit e : M unit).
Proof.
  intros He. exists [], (Ok tt). split; [constructor|].
  intros k. repeat split. cbn. by repeat constructor.
Qed.

Lemma Tame_log (l : LogLine Version) : Tame env (log l : M unit).
Proof. by apply Tame_emit. Qed.

Lemma Tame_bind {A B} (m : M A) (f : A → M B) :
  Tame env m → (∀ a, Tame env (f a)) → Tame env (m ≫= f).
Proof.
  intros (cs & r & Hcs & Hm) Hf. destruct r as [a|c].
  - destruct (Hf a) as (cs' & r' & Hcs' & Hfa).
    exists (cs ++ cs'), r'. split; [by apply Forall_app|].
    intros k. destruct (Hm k) as (Hfin & Hres & Htr).
    rewrite bind_run, Hres. cbn [result trace final].
    destruct (Hfa (final (m k))) as (Hfin' & Hres' & Htr').
    rewrite do_calls_app, <- Hfin. split; [done|]. split; [done|].
    by apply Forall_app.
  - exists cs, (Crashed c). split; [done|].
    intros k. destruct (Hm k) as (Hfin & Hres & Htr).
    rewrite bind_run, Hres. by cbn [result trace final].
Qed.

Lemma Tame_logIfError (err : option error) : Tame env (logIfError err : M unit).
Proof. destruct err; [apply Tame_log | apply Tame_ret]. Qed.

Section Backend.

Variable api : Interface K.
Variable cgroupPath : string.
Variable pid : Z.
Hypothesis api_from_New : ∃ version, (cgroup_New env version).1 = Some api.
Hypothesis cgroupPath_resolved : resolved_path env cgroupPath.

(** The pipeline changes the state through at most one call of the
    backend and returns; its result is that of the call. *)
Lemma applyDeviceRules_tame (mountPath : string) :
  found_at env mountPath →
  ∃ cs : list (@BackendCall K),
    Forall (from_New env) cs
    ∧ ∀ k, let r := applyDeviceRules env api mountPath cgroupPath pid k in
        final r = do_calls cs k
        ∧ (∃ err, result r = Ok err)
        ∧ Forall (expected env) (trace r).
Proof.
  intros Hfound.
  destruct (unix_Stat env mountPath) as [stat|err] eqn:Hstat;
    [destruct (deviceTypeOf stat) as [deviceType|] eqn:Htype|].
  - exists [(api, cgroupPath, rule_of_stat deviceType stat)].
    split; [by repeat constructor|].
    intros k r. subst r. rewrite applyDeviceRules_run, Hstat, Htype.
    cbn [result trace final]. split; [done|]. split; [by eexists|].
    apply Forall_app. split.
    + repeat constructor; try done. by exists mountPath, stat, deviceType.
    + destruct (AddDeviceRules _ _ _ _).1; by repeat constructor.
  - exists []. split; [constructor|].
    intros k r. subst r. rewrite applyDeviceRules_run, Hstat, Htype.
    cbn [result trace final]. split; [done|]. split; [by eexists|].
    by repeat constructor.
  - exists []. split; [constructor|].
    intros k r. subst r. rewrite applyDeviceRules_run, Hstat.
    cbn [result trace final]. split; [done|]. split; [by eexists|].
    by repeat constructor.
Qed.

(** A run of the pipeline whose error is logged and dropped. *)
Lemma Tame_pipeline_logged {A} (mountPath : string) (a : A) :
  found_at env mountPath →
  Tame env (err ← applyDeviceRules env api mountPath cgroupPath pid;
            logIfError err;; mret a).
Proof.
  intros Hfound.
  destruct (applyDeviceRules_tame mountPath Hfound) as (cs & Hcs & Hrun).
  exists cs, (Ok a). split; [done|].
  intros k. destruct (Hrun k) as (Hfin & [err Hres] & Htr).
  rewrite bind_run, Hres. cbv iota beta.
  rewrite bind_run, logIfError_run. cbn [result trace final mret M_ret].
  split; [done|]. split; [done|].
  rewrite app_nil_r. apply Forall_app. split; [done|].
  destruct err; by repeat constructor.
Qed.

Lemma Tame_walkFn path info err :
  (info = Some {| IsDir := false |} → err = None → found_at env path) →
  Tame env (walkFn env api cgroupPath pid path info err).
Proof.
  intros Hfound. unfold walkFn.
  destruct err as [e|]; [apply Tame_ret|].
  destruct info as [[[]]|]; [apply Tame_ret| |apply Tame_crash].
  cbn [IsDir]. by apply Tame_pipeline_logged, Hfound.
Qed.

Lemma Tame_rangeNames {X} (body : X → M (option error)) (names : list X) :
  Forall (λ name, Tame env (body name)) names →
  Tame env (rangeNames body names).
Proof.
  induction 1 as [|name rest Hname _ IH]; cbn [rangeNames]; [apply Tame_ret|].
  apply Tame_bind; [done|]. intros [e|]; [apply Tame_ret | done].
Qed.

Lemma Tame_walk t :
  ∀ path, (∀ p, p ∈ files_beneath path t → found_at env p) →
    Tame env (walk (walkFn env api cgroupPath pid) path t).
Proof.
  induction t as [e| |e|entries IH] using FsTree_ind; intros path Hfiles;
    cbn [walk]; try by apply Tame_walkFn.
  - apply Tame_walkFn. intros _ _. apply Hfiles. by apply list_elem_of_singleton.
  - apply Tame_bind; [by apply Tame_walkFn|].
    intros [e|]; [apply Tame_ret|].
    apply Tame_rangeNames. cbn [files_beneath] in Hfiles.
    induction IH as [|entry rest Hentry _ IHrest]; constructor.
    + apply Hentry. intros p Hp. apply Hfiles. cbn [map concat].
      apply elem_of_app. by left.
    + apply IHrest. intros p Hp. apply Hfiles. cbn [map concat].
      apply elem_of_app. by right.
Qed.

End Backend.

Lemma Tame_mountBody id info pid version mount :
  mount_of env mount → Tame env (mountBody env id info pid version mount).
Proof.
  intros Hmount. unfold mountBody.
  apply Tame_bind; [apply Tame_log|]. intros _.
  destruct (HasPrefix (Source mount) "/dev") eqn:Hdev; cbn [negb].
  2: { apply Tame_bind; [apply Tame_log|]. intros _. apply Tame_ret. }
  apply Tame_bind; [by apply Tame_emit|]. intros _.
  destruct (cgroup_New env version) as [[api|] newErr] eqn:Hnew;
    [|apply Tame_crash].
  assert (Hapi : ∃ v, (cgroup_New env v).1 = Some api)
    by (exists version; by rewrite Hnew).
  apply Tame_bind; [by apply Tame_emit|]. intros _.
  destruct (GetDeviceCGroupMountPath api "/" pid) as [[cg sysfs] [e|]] eqn:Hres.
  { apply Tame_bind; [apply Tame_log|]. intros _. apply Tame_ret. }
  assert (Hpath : resolved_path env (path_Join [rootPath; sysfs; cg])).
  { exists version, api, pid, cg, sysfs. by rewrite Hnew. }
  apply Tame_bind; [apply Tame_log|]. intros _.
  apply Tame_bind; [apply Tame_emit; by exists mount|]. intros _.
  destruct (os_Stat env (Source mount)) as [fileInfo|e].
  2: { apply Tame_bind; [apply Tame_log|]. intros _. apply Tame_ret. }
  destruct (IsDir fileInfo).
  - apply Tame_bind.
    + unfold filepath_Walk. apply Tame_bind; [apply Tame_emit; by exists mount|].
      intros _. apply Tame_walk; [done..|].
      intros p Hp. exists mount. split; [done|]. split; [done|]. by right.
    + intros err. apply Tame_bind; [apply Tame_logIfError|]. intros _.
      apply Tame_ret.
  - apply Tame_pipeline_logged; [done..|].
    exists mount. split; [done|]. split; [done|]. by left.
Qed.

Lemma Tame_rangeMounts (body : MountPoint → M LoopCtl) mounts :
  Forall (λ mount, Tame env (body mount)) mounts →
  Tame env (rangeMounts body mounts).
Proof.
  induction 1 as [|mount rest Hmount _ IH]; cbn [rangeMounts]; [apply Tame_ret|].
  apply Tame_bind; [done|]. intros [|]; [done | apply Tame_ret].
Qed.

Lemma Tame_processContainer id : Tame env (processContainer env id).
Proof.
  unfold processContainer. apply Tame_bind; [by apply Tame_emit|]. intros _.
  destruct (ContainerInspect env id) as [info|err] eqn:Hinspect;
    [|apply Tame_crash].
  apply Tame_bind; [by apply Tame_emit|]. intros _.
  destruct (GetDeviceCGroupVersion env "/" (Pid (State info))) as [version err].
  apply Tame_bind; [apply Tame_log|]. intros _.
  destruct err as [e|]; [apply Tame_log|].
  apply Tame_bind; [apply Tame_log|]. intros _.
  apply Tame_rangeMounts, Forall_forall. intros mount Hin.
  apply Tame_mountBody. by exists id, info.
Qed.

Lemma Tame_rangeContainers containers : Tame env (rangeContainers env containers).
Proof.
  induction containers as [|c rest IH]; cbn [rangeContainers]; [apply Tame_ret|].
  apply Tame_bind; [case_decide; [apply Tame_crash | apply Tame_log]|].
  intros _. apply Tame_bind; [apply Tame_processContainer|]. by intros _.
Qed.

Lemma Tame_checkExistingContainers : Tame env (checkExistingContainers env).
Proof.
  unfold checkExistingContainers. apply Tame_bind; [by apply Tame_emit|].
  intros _. destruct (ContainerList env); [apply Tame_rangeContainers|].
  apply Tame_crash.
Qed.

Lemma Tame_listenForMounts items : Tame env (listenForMounts env items).
Proof.
  induction items as [|[err|actorID] rest IH]; cbn [listenForMounts].
  - apply Tame_ret.
  - unfold log_Fatal. apply Tame_bind; [apply Tame_log|]. intros _.
    apply Tame_crash.
  - apply Tame_bind; [apply Tame_processContainer|]. by intros _.
Qed.

Lemma Tame_main items : Tame env (main env items).
Proof.
  unfold main. apply Tame_bind; [apply Tame_log|]. intros _.
  apply Tame_bind; [apply Tame_checkExistingContainers|]. intros _.
  apply Tame_listenForMounts.
Qed.

End TameRuns.

(** ** The rules and paths the daemon hands out *)

Section Calls.

Context {Version K : Type}.
Variable env : Env Version K.

Lemma main_calls_expected items k :
  Forall (expected env) (trace (main env items k)).
Proof.
  destruct (Tame_main env items) as (cs & r & _ & Hrun).
  by destruct (Hrun k) as (_ & _ & Htr).
Qed.


(** C5, as amended.  Of the paths the daemon works with, only the cgroup
    path handed to the rule applier is rewritten under the host root: it
    is [path.Join] of the host root and what the path resolver returned,
    which lies under the host root unless the resolver returned an
    element [..].  The version detector and the path resolver are called
    with the root [/]; [os.Stat] and the walk get the source of the mount
    as the runtime reports it, and the resolver stats that source or the
    files the walk finds beneath it. *)
Theorem host_root_joined_to_cgroup_path_only (items : list StreamItem) (k : K)
    (sysfsPath cgroupPath : string) :
  no_dotdot sysfsPath → no_dotdot cgroupPath →
  HasPrefix (path_Join [rootPath; sysfsPath; cgroupPath]) rootPath = true
  ∧ Forall (λ ev,
      match ev with
      | EvGetDeviceCGroupVersion root _ => root = "/"
      | EvGetDeviceCGroupMountPath root _ => root = "/"
      | EvOsStat p | EvWalk p =>
          ∃ mount, mount_of env mount
            ∧ HasPrefix (Source mount) "/dev" = true ∧ p = Source mount
      | EvUnixStat p =>
          ∃ mount, mount_of env mount
            ∧ HasPrefix (Source mount) "/dev" = true
            ∧ (p = Source mount
               ∨ p ∈ files_beneath (Source mount) (lstat_tree env (Source mount)))
      | EvAddDeviceRules p _ =>
          ∃ version api pid cg sysfs,
            (cgroup_New env version).1 = Some api
            ∧ GetDeviceCGroupMountPath api "/" pid = (cg, sysfs, None)
            ∧ p = path_Join [rootPath; sysfs; cg]
      | _ => True
      end) (trace (main env items k)).
Proof.
  intros Hs Hc. split; [by apply path_Join_under_rootPath|].
  eapply Forall_impl; [apply main_calls_expected|].
  intros [] Hev; try done. by destruct Hev as [Hpath _].
Qed.

End Calls.

Lemma host_root_joined_to_cgroup_path_only_witness :
  HasPrefix
    (path_Join [rootPath; "/sys/fs/cgroup"; "/docker/0123456789abcdef0123"])
    rootPath = true.
Proof.
  apply (host_root_joined_to_cgroup_path_only Demo.env [] cgroup.empty_state
           "/sys/fs/cgroup" "/docker/0123456789abcdef0123").
  - unfold no_dotdot. vm_compute split_slash. repeat constructor; discriminate.
  - unfold no_dotdot. vm_compute split_slash. repeat constructor; discriminate.
Defined.

(** C5 fails as stated: for a container that mounts [/dev/dri] and
    [/dev/sda], the version detector gets the root [/], and [os.Stat], the
    walk and the resolver get the paths under [/dev] as they are; of all
    the paths of the pass only the cgroup path of the rule applier lies
    under the host root. *)
Lemma device_paths_not_under_host_root :
  accessed_paths
    (trace (processContainer Demo.env Demo.desktop cgroup.empty_state))
  = ["/"; "/"; "/dev/dri"; "/dev/dri"; "/dev/dri/README"; "/dev/dri/card0";
     "/host/sys/fs/cgroup/docker/0123456789abcdef0123";
     "/dev/dri/renderD128";
     "/host/sys/fs/cgroup/docker/0123456789abcdef0123";
     "/"; "/dev/sda"; "/dev/sda";
     "/host/sys/fs/cgroup/docker/0123456789abcdef0123"]
  ∧ EvOsStat "/dev/dri"
    ∈ trace (processContainer Demo.env Demo.desktop cgroup.empty_state)
  ∧ EvUnixStat "/dev/dri/card0"
    ∈ trace (processContainer Demo.env Demo.desktop cgroup.empty_state)
  ∧ EvGetDeviceCGroupVersion "/" 4242
    ∈ trace (processContainer Demo.env Demo.desktop cgroup.empty_state)
  ∧ HasPrefix "/dev/dri" rootPath = false
  ∧ HasPrefix "/dev/dri/card0" rootPath = false
  ∧ HasPrefix "/" rootPath = false.
Proof.
  split; [by vm_compute|].
  repeat split; try (by vm_compute);
    vm_compute trace; apply list_elem_of_In; cbn [In]; tauto.
Qed.

(** ** The Device Rule Applier *)

Section Absorb.

(** Actions that, once done, stay done and change nothing when they are
    done again: a list of them run twice is the list run once. *)
Context {S L : Type}.
Variable act : S → L → S.
Variable Done : L → S → Prop.
Hypothesis establish : ∀ l s, Done l (act s l).
Hypothesis preserve : ∀ l l' s, Done l s → Done l (act s l').
Hypothesis absorb : ∀ l s, Done l s → act s l = s.

Lemma Done_foldl l ls s : Done l s → Done l (foldl act s ls).
Proof.
  revert s. induction ls as [|l' ls IH]; intros s Hs; [done|].
  by apply IH, preserve.
Qed.

Lemma Done_all ls s : Forall (λ l, Done l (foldl act s ls)) ls.
Proof.
  revert s. induction ls as [|l ls IH]; intros s; [constructor|].
  constructor; [|apply IH]. cbn [foldl]. apply Done_foldl, establish.
Qed.

Lemma foldl_absorbed ls s : Forall (λ l, Done l s) ls → foldl act s ls = s.
Proof.
  induction 1 as [|l ls Hl _ IH]; [done|]. cbn [foldl]. by rewrite absorb.
Qed.

Lemma foldl_twice ls s : foldl act (foldl act s ls) ls = foldl act s ls.
Proof. apply foldl_absorbed, Done_all. Qed.

End Absorb.

Section Applier.

Import cgroup.
Variable h : Host.


Lemma rules_at_Some (m : gmap string (list DeviceRule)) p l :
  m !! p = Some l → rules_at m p = l.
Proof. unfold rules_at. by intros ->. Qed.

Lemma add_rule_incl l r r' : r' ∈ l → r' ∈ add_rule l r.
Proof.
  unfold add_rule. case_decide; [done|]. intros ?. apply elem_of_app. by left.
Qed.

Lemma add_rule_new l r : r ∈ add_rule l r.
Proof.
  unfold add_rule. case_decide; [done|]. apply elem_of_app. right.
  by apply list_elem_of_singleton.
Qed.

Lemma add_rule_old l r : r ∈ l → add_rule l r = l.
Proof. unfold add_rule. intros ?. by rewrite decide_True. Qed.

Lemma CgroupState_eta st :
  st = {| allow_list := allow_list st;
          applied := applied st;
          attached := attached st |}.
Proof. by destruct st. Qed.

(** The applier at a V1 target. *)
Lemma applyRule_V1 t r st :
  version t = V1 →
  applyRule h t r st =
  if accepts_rule h (path t) r
  then {| allow_list := <[path t := add_rule (rules_at (allow_list st) (path t)) r]>
                          (allow_list st);
          applied := applied st;
          attached := attached st |}
  else st.
Proof.
  intros Hv. unfold applyRule, backend. rewrite Hv.
  cbn [AddDeviceRules AddDeviceRulesV1].
  by destruct (accepts_rule h (path t) r).
Qed.

(** The applier at a V2 target. *)
Lemma applyRule_V2 t r st :
  version t = V2 →
  let all := add_rule (rules_at (applied st) (path t)) r in
  applyRule h t r st =
  {| allow_list := allow_list st;
     applied := <[path t := all]> (applied st);
     attached := if accepts_program h (path t) all
                 then <[path t := all]> (attached st)
                 else attached st |}.
Proof.
  intros Hv all. unfold applyRule, backend. rewrite Hv. cbn [AddDeviceRules].
  unfold AddDeviceRulesV2, union_rules. cbn [foldl]. fold all.
  by destruct (accepts_program h (path t) all).
Qed.





(** What it is for an action of the applier to be done: at a V1 target
    the rule, if the kernel takes it, is in the allow-list; at a V2 target
    the rule is in the record, and the record is the attached program if
    the kernel takes it. *)
Lemma applyRule_absorbing :
  ∃ Done : CgroupTarget * DeviceRule → CgroupState → Prop,
    (∀ c st, Done c (applyRule h c.1 c.2 st))
    ∧ (∀ c c' st, Done c st → Done c (applyRule h c'.1 c'.2 st))
    ∧ (∀ c st, Done c st → applyRule h c.1 c.2 st = st).
Proof.
  exists (λ c st,
    match version c.1 with
    | V1 => accepts_rule h (path c.1) c.2 = true →
            ∃ l, allow_list st !! path c.1 = Some l ∧ c.2 ∈ l
    | V2 => ∃ l, applied st !! path c.1 = Some l ∧ c.2 ∈ l
                 ∧ (accepts_program h (path c.1) l = true →
                    attached st !! path c.1 = Some l)
    end).
  split; [|split].
  - intros [t r] st. cbn [fst snd]. destruct (version t) eqn:Hv.
    + rewrite applyRule_V1 by done. intros ->. cbn [allow_list].
      eexists. split; [apply lookup_insert_eq | apply add_rule_new].
    + rewrite applyRule_V2 by done. cbn [applied attached].
      eexists. split; [apply lookup_insert_eq|]. split; [apply add_rule_new|].
      intros ->. apply lookup_insert_eq.
  - intros [t r] [t' r'] st. cbn [fst snd].
    destruct (version t) eqn:Hv; destruct (version t') eqn:Hv';
      rewrite ?applyRule_V1, ?applyRule_V2 by done.
    + destruct (accepts_rule h (path t') r'); [|done].
      intros Hdone Hacc. destruct (Hdone Hacc) as (l & Hl & Hin).
      cbn [allow_list]. destruct (decide (path t' = path t)) as [Hp|Hp].
      * rewrite Hp. eexists. split; [apply lookup_insert_eq|].
        apply add_rule_incl. by rewrite (rules_at_Some _ _ _ Hl).
      * rewrite lookup_insert_ne by done. by exists l.
    + done.
    + by destruct (accepts_rule h (path t') r').
    + intros (l & Hl & Hin & Hatt). cbn [applied attached].
      destruct (decide (path t' = path t)) as [Hp|Hp].
      * rewrite Hp. eexists. split; [apply lookup_insert_eq|].
        rewrite (rules_at_Some _ _ _ Hl). split; [by apply add_rule_incl|].
        intros ->. apply lookup_insert_eq.
      * rewrite lookup_insert_ne by done. exists l. split; [done|]. split; [done|].
        intros Hacc. destruct (accepts_program h (path t') _);
          [rewrite lookup_insert_ne by done|]; by apply Hatt.
  - intros [t r] st. cbn [fst snd]. destruct (version t) eqn:Hv.
    + rewrite applyRule_V1 by done.
      destruct (accepts_rule h (path t) r); [|done].
      intros Hdone. destruct (Hdone eq_refl) as (l & Hl & Hin).
      rewrite (rules_at_Some _ _ _ Hl), add_rule_old, insert_id by done.
      symmetry. apply CgroupState_eta.
    + rewrite applyRule_V2 by done. intros (l & Hl & Hin & Hatt). cbv zeta.
      rewrite (rules_at_Some _ _ _ Hl), add_rule_old, insert_id by done.
      destruct (accepts_program h (path t) l).
      * rewrite insert_id by by apply Hatt. symmetry. apply CgroupState_eta.
      * symmetry. apply CgroupState_eta.
Qed.

Lemma apply_all_twice calls st :
  apply_all h calls (apply_all h calls st) = apply_all h calls st.
Proof.
  destruct applyRule_absorbing as (Done & Hest & Hpres & Habs).
  unfold apply_all.
  by apply (foldl_twice (λ st c, applyRule h c.1 c.2 st) Done).
Qed.

Lemma applyRule_iter t r st (n : nat) :
  (1 ≤ n)%nat → Nat.iter n (applyRule h t r) st = applyRule h t r st.
Proof.
  destruct applyRule_absorbing as (Done & Hest & Hpres & Habs).
  intros Hn. destruct n as [|n]; [lia|]. clear Hn.
  induction n as [|n IH]; [done|].
  change (Nat.iter (Datatypes.S (Datatypes.S n)) (applyRule h t r) st)
    with (applyRule h t r (Nat.iter (Datatypes.S n) (applyRule h t r) st)).
  rewrite IH. apply (Habs (t, r)), (Hest (t, r)).
Qed.

(** What the daemon does to the state of the modelled backend is a list
    of actions of the applier. *)
Lemma do_calls_apply_all (env : Env CgroupVersion CgroupState)
    (cs : list (@BackendCall CgroupState)) :
  (∀ v, cgroup_New env v = New h v) →
  Forall (from_New env) cs →
  ∃ calls, ∀ st, do_calls cs st = apply_all h calls st.
Proof.
  intros Hnew. induction 1 as [|[[api p] r] cs [v Hv] _ (calls & IH)].
  - by exists [].
  - rewrite Hnew in Hv. cbn in Hv. injection Hv as <-.
    exists (({| version := v; path := p; mountRoot := "" |}, r) :: calls).
    intros st. cbn [do_calls foldl apply_all]. apply IH.
Qed.

Lemma processContainer_apply_all (env : Env CgroupVersion CgroupState) id :
  (∀ v, cgroup_New env v = New h v) →
  ∃ calls, ∀ st, final (processContainer env id st) = apply_all h calls st.
Proof.
  intros Hnew. destruct (Tame_processContainer env id) as (cs & r & Hcs & Hrun).
  destruct (do_calls_apply_all env cs Hnew Hcs) as (calls & Hcalls).
  exists calls. intros st. destruct (Hrun st) as (-> & _). apply Hcalls.
Qed.

End Applier.

Section Monotone.

Import cgroup.
Variable h : Host.
Variable env : Env CgroupVersion CgroupState.
Hypothesis env_New : ∀ v, cgroup_New env v = New h v.




(** C2.  Running the Device Rule Applier for a rule at a target [N] times,
    [N] at least one, leaves the state of every target, and so its
    allow-set, as one run leaves it; and a second pass over a container
    that has been processed changes nothing. *)
Theorem applier_idempotent (st : CgroupState) (t : CgroupTarget)
    (r : DeviceRule) (N : nat) :
  (1 ≤ N)%nat →
  Nat.iter N (applyRule h t r) st = applyRule h t r st
  ∧ (∀ t' d, effective t' (Nat.iter N (applyRule h t r) st)
               = effective t' (applyRule h t r st)
             ∧ allowed t' (Nat.iter N (applyRule h t r) st) d
               = allowed t' (applyRule h t r st) d)
  ∧ (∀ id, let processed := final (processContainer env id st) in
       final (processContainer env id processed) = processed
       ∧ ∀ t' d, allowed t' (final (processContainer env id processed)) d
                 = allowed t' processed d).
Proof.
  intros HN. rewrite applyRule_iter by done. split; [done|]. split; [done|].
  intros id.
  destruct (processContainer_apply_all h env id env_New) as [calls Hcalls].
  cbv zeta. rewrite !Hcalls, apply_all_twice. done.
Qed.

End Monotone.


Lemma applier_idempotent_witness :
  Nat.iter 3 (cgroup.applyRule Demo.host Demo.desktop_target
                (cgroup.rule_for Demo.card0)) cgroup.empty_state
  = cgroup.applyRule Demo.host Demo.desktop_target (cgroup.rule_for Demo.card0)
      cgroup.empty_state.
Proof.
  apply (applier_idempotent Demo.host Demo.env (λ v, eq_refl) cgroup.empty_state
           Demo.desktop_target (cgroup.rule_for Demo.card0) 3).
  lia.
Defined.

(** * Further properties of [main.go] *)

(** ** The resolver and the pipeline *)

Section PipelineErrors.

Context {Version K : Type}.
Variable env : Env Version K.

Lemma backend_calls_app (tr1 tr2 : list (Event Version)) :
  backend_calls (tr1 ++ tr2) = backend_calls tr1 ++ backend_calls tr2.
Proof. apply omap_app. Qed.

Lemma backend_calls_error_lines (err : option error) :
  backend_calls (error_lines (Version:=Version) err) = [].
Proof. by destruct err. Qed.

(** X1.  [getDeviceInfo] always returns, leaves the backend alone and
    stats its path once.  Its result is either a device, with the kind
    [b] or [c], numbers between 0 and 2^32 and a nil error, or an error
    with the empty kind and both numbers -1; when [unix.Stat] fails the
    error returned is that of [unix.Stat]. *)
Theorem getDeviceInfo_device_or_error (devicePath : string) (k : K) :
  let r := getDeviceInfo env devicePath k in
  final r = k
  ∧ resolver_calls (trace r) = [devicePath]
  ∧ ∃ deviceType major minor err,
      result r = Ok (deviceType, major, minor, err)
      ∧ ((err = None ∧ (deviceType = "b" ∨ deviceType = "c")
          ∧ 0 ≤ major < 2 ^ 32 ∧ 0 ≤ minor < 2 ^ 32)
         ∨ (err ≠ None ∧ deviceType = "" ∧ major = -1 ∧ minor = -1))
      ∧ (∀ e, unix_Stat env devicePath = inr e → err = Some e).
Proof.
  intros r. subst r. rewrite getDeviceInfo_run.
  destruct (unix_Stat env devicePath) as [stat|e0] eqn:Hstat.
  - destruct (deviceTypeOf stat) as [deviceType|] eqn:Htype.
    + split; [done|]. split; [done|].
      exists deviceType, (unix_Major (Rdev stat)), (unix_Minor (Rdev stat)), None.
      split; [done|]. split; [|done]. left. split; [done|].
      split; [|split; [apply unix_Major_range | apply unix_Minor_range]].
      unfold deviceTypeOf in Htype. repeat case_decide; naive_solver.
    + split; [done|]. split; [done|]. eexists _, _, _, _. split; [done|].
      split; [|done]. right. by repeat split.
  - split; [done|]. split; [done|]. eexists _, _, _, _. split; [done|].
    split; [right; by repeat split|]. by intros e [= ->].
Qed.

(** X2.  [applyDeviceRules] calls the backend at most once and only for a
    device the resolver found.  It returns nil exactly when the resolver
    found a device and the backend returned nil for its rule; when the
    resolver fails the backend is not called and its state is as
    before. *)
Theorem applyDeviceRules_nil_iff_installed (api : Interface K)
    (mountPath cgroupPath : string) (pid : Z) (k : K) :
  let r := applyDeviceRules env api mountPath cgroupPath pid k in
  (result r = Ok None
   ↔ ∃ stat deviceType,
       unix_Stat env mountPath = inl stat
       ∧ deviceTypeOf stat = Some deviceType
       ∧ (AddDeviceRules api cgroupPath [rule_of_stat deviceType stat] k).1 = None)
  ∧ backend_calls (trace r)
    = option_list (planned_call env cgroupPath mountPath)
  ∧ (planned_call env cgroupPath mountPath = None →
     final r = k ∧ ∃ e, result r = Ok (Some e))
  ∧ (∀ stat deviceType,
       unix_Stat env mountPath = inl stat →
       deviceTypeOf stat = Some deviceType →
       let out := AddDeviceRules api cgroupPath [rule_of_stat deviceType stat] k in
       result r = Ok out.1 ∧ final r = out.2).
Proof.
  intros r. subst r. rewrite applyDeviceRules_run. unfold planned_call.
  destruct (unix_Stat env mountPath) as [stat|e0] eqn:Hstat;
    [destruct (deviceTypeOf stat) as [deviceType|] eqn:Htype|].
  - cbn [result trace final]. split; [|split; [|split]].
    + split.
      * intros [= Hnil]. by exists stat, deviceType.
      * intros (stat' & ty' & [= <-] & Hty & Hnil).
        rewrite Htype in Hty. injection Hty as <-. by rewrite Hnil.
    + rewrite backend_calls_app, backend_calls_error_lines. done.
    + done.
    + intros stat' ty' [= <-] Hty. rewrite Htype in Hty. by injection Hty as <-.
  - cbn [result trace final]. split; [|split; [|split]].
    + split; [done|]. intros (stat' & ty' & [= <-] & Hty & _). congruence.
    + done.
    + intros _. split; [done|]. by eexists.
    + intros stat' ty' [= <-] Hty. congruence.
  - cbn [result trace final]. split; [|split; [|split]].
    + split; [done|]. by intros (stat' & ty' & [=] & _).
    + done.
    + intros _. split; [done|]. by eexists.
    + by intros stat' ty' [=].
Qed.

End PipelineErrors.

(** ** Containers that the pass leaves alone *)

Section ContainerEdges.

Context {Version K : Type}.
Variable env : Env Version K.

Local Abbreviation M := (M Version K).

(** The lines [processContainer] writes before the loop over the mounts. *)
Lemma processContainer_header_run id info version k :
  ContainerInspect env id = inl info →
  GetDeviceCGroupVersion env "/" (Pid (State info)) = (version, None) →
  ∀ (tr : list (Event Version)) (res : Res unit) (k' : K),
    rangeMounts (mountBody env id info (Pid (State info)) version)
      (Mounts info) k = mkRun res tr k' →
    processContainer env id k
    = mkRun res
        ([EvContainerInspect id;
          EvGetDeviceCGroupVersion "/" (Pid (State info));
          EvLog (LogCgroupVersion (Pid (State info)) version);
          EvLog (LogCheckingMounts (Pid (State info)))] ++ tr) k'.
Proof.
  intros Hinspect Hversion tr res k' Hloop.
  rewrite (processContainer_run env id info version) by done.
  by rewrite Hloop.
Qed.

Lemma rangeContainers_step (c : Container) (cs : list Container) (k : K) :
  rangeContainers env (c :: cs) k
  = if decide (String.length (ID c) < 10)%nat
    then mkRun (Crashed PanicSliceBounds) [] k
    else
      let r := processContainer env (ID c) k in
      let line := EvLog (LogCheckingExisting (substring 0 10 (ID c)) (Image c)) in
      match result r with
      | Ok _ =>
          let r' := rangeContainers env cs (final r) in
          mkRun (result r') (line :: trace r ++ trace r') (final r')
      | Crashed c' => mkRun (Crashed c') (line :: trace r) (final r)
      end.
Proof.
  case_decide as Hlen.
  - cbn [rangeContainers]. rewrite decide_True by done. done.
  - rewrite rangeContainers_cons by lia. done.
Qed.

(** X3.  When the cgroup version of a container's process cannot be
    detected, [processContainer] logs the version value and the error and
    returns: no mount is looked at, the backend is neither built nor
    called, and the scan of the existing containers goes on with the
    containers behind it. *)
Theorem version_detection_failure_skips_container (id : string)
    (info : ContainerJSON) (version : Version) (e : error) (k : K) :
  ContainerInspect env id = inl info →
  GetDeviceCGroupVersion env "/" (Pid (State info)) = (version, Some e) →
  let pid := Pid (State info) in
  let container :=
    [EvContainerInspect id;
     EvGetDeviceCGroupVersion "/" pid;
     EvLog (LogCgroupVersion pid version);
     EvLog (LogError e)] in
  processContainer env id k = mkRun (Ok tt) container k
  ∧ (∀ image others, (10 ≤ String.length id)%nat →
       let r := rangeContainers env others k in
       rangeContainers env ({| ID := id; Image := image |} :: others) k
       = mkRun (result r)
           (EvLog (LogCheckingExisting (substring 0 10 id) image)
            :: container ++ trace r)
           (final r)).
Proof.
  intros Hinspect Hversion pid container.
  assert (Hpc : processContainer env id k = mkRun (Ok tt) container k).
  { unfold processContainer. rewrite Hinspect. cbv zeta. by rewrite Hversion. }
  split; [done|]. intros image others Hlen r.
  rewrite rangeContainers_cons by done. cbn [ID Image]. by rewrite Hpc.
Qed.

(** X4.  When [os.Stat] fails on the source of a mount under [/dev], the
    error is logged and the loop goes on with the next mount of the same
    container; the resolver and the backend are not called for it. *)
Theorem stat_failure_continues_with_next_mount (id : string)
    (info : ContainerJSON) (pid : Z) (version : Version) (mount : MountPoint)
    (rest : list MountPoint) (api : Interface K) (cg sysfs : string)
    (e : error) (k : K) :
  HasPrefix (Source mount) "/dev" = true →
  (cgroup_New env version).1 = Some api →
  GetDeviceCGroupMountPath api "/" pid = (cg, sysfs, None) →
  os_Stat env (Source mount) = inr e →
  let r := rangeMounts (mountBody env id info pid version) rest k in
  rangeMounts (mountBody env id info pid version) (mount :: rest) k
  = mkRun (result r)
      ([EvLog (LogMountRequested id (Pid (State info)) (Source mount)
                 (Destination mount));
        EvNew version;
        EvGetDeviceCGroupMountPath "/" pid;
        EvLog (LogCgroupPath pid (path_Join [rootPath; sysfs; cg]));
        EvOsStat (Source mount);
        EvLog (LogError e)] ++ trace r)
      (final r).
Proof.
  intros Hdev Hnew Hres Hstat r.
  assert (Hbody : mountBody env id info pid version mount k
                  = mkRun (Ok Continue)
                      [EvLog (LogMountRequested id (Pid (State info))
                                (Source mount) (Destination mount));
                       EvNew version;
                       EvGetDeviceCGroupMountPath "/" pid;
                       EvLog (LogCgroupPath pid (path_Join [rootPath; sysfs; cg]));
                       EvOsStat (Source mount);
                       EvLog (LogError e)] k).
  { unfold mountBody. rewrite Hdev. cbn [negb].
    destruct (cgroup_New env version) as [api' newErr]. cbn in Hnew. subst api'.
    rewrite !bind_run. cbn [log emit result final trace]. rewrite Hres.
    rewrite !bind_run. cbn [log emit result final trace]. by rewrite Hstat. }
  rewrite rangeMounts_cons, bind_run, Hbody. done.
Qed.

(** X5.  For a container none of whose mounts begins with [/dev],
    [processContainer] only writes its log lines: [cgroup.New] is not
    called, the file system is not read, and the state of the backend is
    as before. *)
Theorem container_without_device_mounts_untouched (id : string)
    (info : ContainerJSON) (version : Version) (k : K) :
  ContainerInspect env id = inl info →
  GetDeviceCGroupVersion env "/" (Pid (State info)) = (version, None) →
  Forall (λ m, HasPrefix (Source m) "/dev" = false) (Mounts info) →
  let pid := Pid (State info) in
  processContainer env id k
  = mkRun (Ok tt)
      ([EvContainerInspect id;
        EvGetDeviceCGroupVersion "/" pid;
        EvLog (LogCgroupVersion pid version);
        EvLog (LogCheckingMounts pid)]
       ++ flat_map (skipped_lines id info) (Mounts info)) k.
Proof.
  intros Hinspect Hversion Hmounts pid.
  apply (processContainer_header_run id info version); [done..|].
  rewrite <- (app_nil_r (Mounts info)) at 1.
  rewrite rangeMounts_skipped by done. cbn. by rewrite app_nil_r.
Qed.

(** X9.  When [cgroup.New] returns a nil backend for the version of a
    container, whatever error comes with it, [processContainer] ends the
    daemon with a nil dereference at the first mount that begins with
    [/dev]; the mounts before it are skipped with their log lines. *)
Theorem nil_backend_panics_at_first_device_mount (id : string)
    (info : ContainerJSON) (version : Version) (newErr : option error)
    (pre : list MountPoint) (mount : MountPoint) (rest : list MountPoint)
    (k : K) :
  ContainerInspect env id = inl info →
  GetDeviceCGroupVersion env "/" (Pid (State info)) = (version, None) →
  Mounts info = pre ++ mount :: rest →
  Forall (λ m, HasPrefix (Source m) "/dev" = false) pre →
  HasPrefix (Source mount) "/dev" = true →
  cgroup_New env version = (None, newErr) →
  let pid := Pid (State info) in
  processContainer env id k
  = mkRun (Crashed PanicNilInterface)
      ([EvContainerInspect id;
        EvGetDeviceCGroupVersion "/" pid;
        EvLog (LogCgroupVersion pid version);
        EvLog (LogCheckingMounts pid)]
       ++ flat_map (skipped_lines id info) pre
       ++ [EvLog (LogMountRequested id pid (Source mount) (Destination mount));
           EvNew version]) k.
Proof.
  intros Hinspect Hversion Hmounts Hpre Hdev Hnew pid.
  apply (processContainer_header_run id info version); [done..|].
  rewrite Hmounts, rangeMounts_skipped by done.
  rewrite rangeMounts_cons, bind_run.
  by rewrite (mountBody_nil_backend env id info _ version newErr mount).
Qed.

End ContainerEdges.

Lemma version_detection_failure_skips_container_witness :
  processContainer Faulty.env Faulty.undetected cgroup.empty_state
  = mkRun (Ok tt)
      [EvContainerInspect Faulty.undetected;
       EvGetDeviceCGroupVersion "/" 13;
       EvLog (LogCgroupVersion 13 cgroup.V1);
       EvLog (LogError "cgroup version not found")]
      cgroup.empty_state.
Proof.
  apply (version_detection_failure_skips_container Faulty.env Faulty.undetected
           {| State := {| Pid := 13 |}; Mounts := [Demo.dri] |}
           cgroup.V1 "cgroup version not found" cgroup.empty_state);
    reflexivity.
Defined.

Lemma stat_failure_continues_with_next_mount_witness :
  resolver_calls
    (trace (rangeMounts
              (mountBody Demo.env Demo.desktop
                 {| State := {| Pid := 4242 |};
                    Mounts := [Faulty.missing; Demo.sda] |} 4242 cgroup.V2)
              [Faulty.missing; Demo.sda] cgroup.empty_state))
  = ["/dev/sda"].
Proof.
  rewrite (stat_failure_continues_with_next_mount Demo.env Demo.desktop
             {| State := {| Pid := 4242 |};
                Mounts := [Faulty.missing; Demo.sda] |} 4242 cgroup.V2
             Faulty.missing [Demo.sda] (cgroup.backend Demo.host cgroup.V2)
             "/docker/0123456789abcdef0123" "/sys/fs/cgroup"
             "no such file or directory" cgroup.empty_state);
    reflexivity.
Defined.

Lemma container_without_device_mounts_untouched_witness :
  final (processContainer Faulty.env Faulty.plain cgroup.empty_state)
  = cgroup.empty_state.
Proof.
  rewrite (container_without_device_mounts_untouched Faulty.env Faulty.plain
             {| State := {| Pid := 12 |}; Mounts := [Demo.data; Faulty.lib] |}
             cgroup.V2 cgroup.empty_state); [reflexivity..|].
  repeat constructor.
Defined.

Lemma nil_backend_panics_at_first_device_mount_witness :
  result (processContainer Faulty.env Faulty.unsupported cgroup.empty_state)
  = Crashed PanicNilInterface.
Proof.
  rewrite (nil_backend_panics_at_first_device_mount Faulty.env
             Faulty.unsupported
             {| State := {| Pid := 14 |};
                Mounts := [Demo.data; Demo.dri; Demo.sda] |}
             cgroup.V1 (Some "cgroup v1 is not supported")
             [Demo.data] Demo.dri [Demo.sda] cgroup.empty_state);
    try reflexivity.
  repeat constructor.
Defined.

(** ** The scan of the existing containers and the event loop *)

Section Batches.

Context {Version K : Type}.
Variable env : Env Version K.

Local Abbreviation M := (M Version K).

Lemma listenForMounts_step (item : StreamItem) (rest : list StreamItem) (k : K) :
  listenForMounts env (item :: rest) k
  = match item with
    | StreamError err => mkRun (Crashed ExitFatal) [EvLog (LogError err)] k
    | StreamStart actorID =>
        let r := processContainer env actorID k in
        match result r with
        | Ok _ =>
            let r' := listenForMounts env rest (final r) in
            mkRun (result r') (trace r ++ trace r') (final r')
        | Crashed c => mkRun (Crashed c) (trace r) (final r)
        end
    end.
Proof.
  destruct item as [err|actorID]; [done|].
  cbn [listenForMounts]. rewrite bind_run. by destruct (result _).
Qed.

(** X6.  A listed container whose identifier is shorter than ten bytes
    ends the scan of the existing containers with a slice-bounds panic:
    the containers listed before it have been processed, the container
    itself is not inspected, and those behind it are never looked at. *)
Theorem short_container_id_panics (pre : list Container) (c : Container)
    (rest : list Container) (k : K) :
  ContainerList env = inl (pre ++ c :: rest) →
  (String.length (ID c) < 10)%nat →
  returns (rangeContainers env pre k) →
  let r := rangeContainers env pre k in
  checkExistingContainers env k
  = mkRun (Crashed PanicSliceBounds) (EvContainerList :: trace r) (final r).
Proof.
  intros Hlist Hlen Hret r. subst r.
  unfold checkExistingContainers. rewrite Hlist, bind_run.
  cbn [emit result final trace].
  enough (Hloop : rangeContainers env (pre ++ c :: rest) k
                  = mkRun (Crashed PanicSliceBounds)
                      (trace (rangeContainers env pre k))
                      (final (rangeContainers env pre k))) by (by rewrite Hloop).
  clear Hlist. revert k Hret. induction pre as [|c0 pre IH]; intros k Hret.
  - cbn [app]. rewrite rangeContainers_step. by rewrite decide_True.
  - cbn [app]. destruct Hret as [a Ha]. revert Ha.
    rewrite !rangeContainers_step. case_decide; [done|]. cbv zeta.
    destruct (result (processContainer env (ID c0) k)) as [[]|c']; [|done].
    cbn [result trace final]. intros Ha. rewrite IH by (by exists a).
    done.
Qed.

(** X7.  The scan processes the listed containers in order: the scan of a
    list followed by another is the scan of the first and then, from the
    state it leaves, the scan of the second; when the first ends the
    daemon, nothing of the second is looked at. *)
Theorem rangeContainers_in_order (cs1 cs2 : list Container) (k : K) :
  let r1 := rangeContainers env cs1 k in
  rangeContainers env (cs1 ++ cs2) k
  = match result r1 with
    | Ok _ =>
        let r2 := rangeContainers env cs2 (final r1) in
        mkRun (result r2) (trace r1 ++ trace r2) (final r2)
    | Crashed c => mkRun (Crashed c) (trace r1) (final r1)
    end.
Proof.
  revert k. induction cs1 as [|c cs1 IH]; intros k; cbv zeta.
  - cbn. apply run_eta.
  - cbn [app]. rewrite !rangeContainers_step. case_decide; [done|]. cbv zeta.
    destruct (result (processContainer env (ID c) k)) as [[]|c']; [|done].
    cbn [result trace final]. rewrite IH. cbv zeta.
    destruct (result (rangeContainers env cs1 _)) as [[]|c'']; [|done].
    cbn [result trace final]. by rewrite app_comm_cons, app_assoc.
Qed.

(** X8.  The event loop takes the items of the stream in order, and an
    error on the stream ends the daemon where it stands: the start events
    behind it are never processed. *)
Theorem listenForMounts_in_order (items1 items2 : list StreamItem)
    (err : error) (k : K) :
  let r1 := listenForMounts env items1 k in
  listenForMounts env (items1 ++ items2) k
  = match result r1 with
    | Ok _ =>
        let r2 := listenForMounts env items2 (final r1) in
        mkRun (result r2) (trace r1 ++ trace r2) (final r2)
    | Crashed c => mkRun (Crashed c) (trace r1) (final r1)
    end
  ∧ listenForMounts env (items1 ++ StreamError err :: items2) k
    = listenForMounts env (items1 ++ [StreamError err]) k
  ∧ ¬ returns (listenForMounts env (items1 ++ StreamError err :: items2) k).
Proof.
  assert (Happ : ∀ items1 items2 k,
            listenForMounts env (items1 ++ items2) k
            = match result (listenForMounts env items1 k) with
              | Ok _ =>
                  mkRun
                    (result (listenForMounts env items2
                               (final (listenForMounts env items1 k))))
                    (trace (listenForMounts env items1 k)
                     ++ trace (listenForMounts env items2
                                 (final (listenForMounts env items1 k))))
                    (final (listenForMounts env items2
                              (final (listenForMounts env items1 k))))
              | Crashed c =>
                  mkRun (Crashed c) (trace (listenForMounts env items1 k))
                    (final (listenForMounts env items1 k))
              end).
  { clear. intros items1 items2. induction items1 as [|item items1 IH]; intros k.
    - cbn. apply run_eta.
    - cbn [app]. rewrite !listenForMounts_step. destruct item as [e|actorID]; [done|].
      cbv zeta. destruct (result (processContainer env actorID k)) as [[]|c]; [|done].
      cbn [result trace final]. rewrite IH.
      destruct (result (listenForMounts env items1 _)) as [[]|c']; [|done].
      cbn [result trace final]. by rewrite app_assoc. }
  cbv zeta. split; [apply Happ|]. split.
  - rewrite !Happ. by destruct (result (listenForMounts env items1 k)).
  - intros [a Ha]. revert Ha. rewrite Happ.
    by destruct (result (listenForMounts env items1 k)).
Qed.

(** X15.  Whether and how the daemon ends does not depend on the state of
    the backend, and so not on the errors the backend returns, which are
    only logged; the state the daemon leaves is the starting state after
    a fixed list of single-rule calls on backends that [cgroup.New]
    returned. *)
Theorem main_end_independent_of_backend (items : list StreamItem) :
  ∃ cs : list (@BackendCall K),
    Forall (from_New env) cs
    ∧ ∀ k1 k2,
        result (main env items k1) = result (main env items k2)
        ∧ final (main env items k1) = do_calls cs k1.
Proof.
  destruct (Tame_main env items) as (cs & r & Hcs & Hrun).
  exists cs. split; [done|]. intros k1 k2.
  destruct (Hrun k1) as (Hfin1 & Hres1 & _).
  destruct (Hrun k2) as (_ & Hres2 & _). split; [congruence | done].
Qed.

End Batches.

Lemma short_container_id_panics_witness :
  result (checkExistingContainers Faulty.env cgroup.empty_state)
  = Crashed PanicSliceBounds.
Proof.
  rewrite (short_container_id_panics Faulty.env
             [ {| ID := Demo.desktop; Image := "rdesktop" |} ]
             {| ID := Faulty.short; Image := "busybox" |}
             [ {| ID := Faulty.plain; Image := "nginx" |} ]
             cgroup.empty_state).
  - reflexivity.
  - reflexivity.
  - vm_compute. lia.
  - by eexists.
Defined.

(** ** What a walk installs and what it reports *)

Section WalkResults.

Context {Version K : Type}.
Variable env : Env Version K.
Variable api : Interface K.
Variable cgroupPath : string.
Variable pid : Z.

Local Abbreviation M := (M Version K).

Lemma first_error_readable t : first_error t = None ↔ readable t = true.
Proof.
  induction t as [e| |e|entries IH] using FsTree_ind; cbn [first_error readable];
    try done.
  induction IH as [|entry rest Hentry _ IHrest]; [done|].
  cbn [foldr forallb]. rewrite andb_true_iff, <- Hentry, <- IHrest.
  destruct (first_error entry.2); [|tauto].
  split; [discriminate | by intros [? _]].
Qed.

Lemma walk_result t :
  ∀ path k,
    result (walk (walkFn env api cgroupPath pid) path t k) = Ok (first_error t).
Proof.
  induction t as [e| |e|entries IH] using FsTree_ind; intros path k.
  - cbn [walk]. by rewrite walkFn_err.
  - cbn [walk]. by rewrite walkFn_file.
  - cbn [walk]. by rewrite walkFn_err.
  - rewrite walk_Dir, bind_run, walkFn_dir. cbn [result trace final first_error].
    set (body := λ entry : string * FsTree,
           walk (walkFn env api cgroupPath pid) (path_Join [path; entry.1]) entry.2).
    enough (Hloop : ∀ k', result (rangeNames body entries k')
                          = Ok (foldr (λ entry later,
                                         match first_error entry.2 with
                                         | Some e => Some e
                                         | None => later
                                         end) None entries)) by apply Hloop.
    clear k. induction IH as [|entry rest Hentry _ IHrest]; intros k'; [done|].
    rewrite rangeNames_cons, bind_run. unfold body at 1.
    rewrite Hentry. cbn [foldr]. destruct (first_error entry.2); [done|].
    cbn [result]. apply IHrest.
Qed.

Lemma applyDeviceRules_backend_calls mountPath k :
  backend_calls (trace (applyDeviceRules env api mountPath cgroupPath pid k))
  = option_list (planned_call env cgroupPath mountPath).
Proof.
  rewrite applyDeviceRules_run. unfold planned_call.
  destruct (unix_Stat env mountPath) as [stat|err]; [|done].
  destruct (deviceTypeOf stat); [|done].
  cbn [trace]. by rewrite backend_calls_app, backend_calls_error_lines.
Qed.

Lemma walk_backend_calls t :
  ∀ path k, readable t = true →
    backend_calls (trace (walk (walkFn env api cgroupPath pid) path t k))
    = omap (planned_call env cgroupPath) (files_beneath path t).
Proof.
  induction t as [e| |e|entries IH] using FsTree_ind; intros path k Hread;
    try discriminate Hread.
  - cbn [walk files_beneath omap]. rewrite walkFn_file. cbn [trace].
    rewrite backend_calls_app, applyDeviceRules_backend_calls.
    destruct (result _) as [err|c]; rewrite ?backend_calls_error_lines;
      cbn; destruct (planned_call _ _ _); by rewrite ?app_nil_r.
  - rewrite walk_Dir, bind_run, walkFn_dir. cbn [result trace final app].
    cbn [readable files_beneath] in *.
    revert k Hread. induction IH as [|entry rest Hentry _ IHrest]; intros k Hread;
      [done|].
    cbn [forallb] in Hread. apply andb_true_iff in Hread as [Hr1 Hr2].
    rewrite rangeNames_cons, bind_run. cbv beta.
    rewrite walk_result. apply first_error_readable in Hr1 as Hnone.
    rewrite Hnone. cbn [result trace final map concat].
    rewrite backend_calls_app, omap_app, Hentry by done. f_equal.
    by apply IHrest.
Qed.

(** X10.  A walk with the function of [processContainer] returns the
    first error that [os.Lstat] or a directory listing meets, in the
    order of the walk, and nil exactly when every part of the tree can be
    read: errors of the resolver and of the backend never end it. *)
Theorem walk_returns_first_tree_error (root : string) (k : K) :
  let tree := lstat_tree env root in
  result (filepath_Walk env root (walkFn env api cgroupPath pid) k)
    = Ok (first_error tree)
  ∧ (first_error tree = None ↔ readable tree = true).
Proof.
  intros tree. split; [|apply first_error_readable].
  rewrite filepath_Walk_run. cbn [result]. apply walk_result.
Qed.

End WalkResults.

Section MountCalls.

Context {Version K : Type}.
Variable env : Env Version K.

(** X11.  At a mount that begins with [/dev], with its cgroup path
    resolved, the backend is called once for each device the resolver
    finds, in the order of the walk, with the joined cgroup path and the
    rule of that device, and for nothing else: for the source itself when
    it is not a directory, for the files beneath it when it is a
    directory that can be read. *)
Theorem backend_called_once_per_device (id : string) (info : ContainerJSON)
    (pid : Z) (version : Version) (mount : MountPoint) (api : Interface K)
    (cg sysfs : string) (fileInfo : FileInfo) (k : K) :
  HasPrefix (Source mount) "/dev" = true →
  (cgroup_New env version).1 = Some api →
  GetDeviceCGroupMountPath api "/" pid = (cg, sysfs, None) →
  os_Stat env (Source mount) = inl fileInfo →
  let r := mountBody env id info pid version mount k in
  let tree := lstat_tree env (Source mount) in
  let cgroupPath := path_Join [rootPath; sysfs; cg] in
  (IsDir fileInfo = false →
   backend_calls (trace r)
   = option_list (planned_call env cgroupPath (Source mount)))
  ∧ (IsDir fileInfo = true → readable tree = true →
     backend_calls (trace r)
     = omap (planned_call env cgroupPath) (files_beneath (Source mount) tree)).
Proof.
  intros Hdev Hnew Hres Hstat r tree cgroupPath. subst r.
  rewrite (mountBody_resolved env id info pid version mount api cg sysfs fileInfo)
    by done.
  fold cgroupPath. destruct (IsDir fileInfo).
  - split; [done|]. intros _ Hread.
    rewrite filepath_Walk_run. cbn [result trace final]. fold tree.
    rewrite walk_result. cbn [trace].
    rewrite !backend_calls_app, backend_calls_error_lines, app_nil_r.
    cbn. by apply walk_backend_calls.
  - split; [|done]. intros _.
    destruct (applyDeviceRules_returns env api (Source mount) cgroupPath pid k)
      as [err Herr].
    rewrite Herr. cbn [trace].
    rewrite !backend_calls_app, backend_calls_error_lines, app_nil_r.
    cbn. apply applyDeviceRules_backend_calls.
Qed.

End MountCalls.

Lemma backend_called_once_per_device_witness :
  backend_calls
    (trace (mountBody Demo.env Demo.desktop
              {| State := {| Pid := 4242 |}; Mounts := [Demo.dri] |}
              4242 cgroup.V2 Demo.dri cgroup.empty_state))
  = [("/host/sys/fs/cgroup/docker/0123456789abcdef0123",
      [{| Access := "rwm"; Major := Some 226; Minor := Some 0;
          Type_ := "c"; Allow := true |}]);
     ("/host/sys/fs/cgroup/docker/0123456789abcdef0123",
      [{| Access := "rwm"; Major := Some 226; Minor := Some 128;
          Type_ := "c"; Allow := true |}])].
Proof.
  rewrite (proj2 (backend_called_once_per_device Demo.env Demo.desktop
             {| State := {| Pid := 4242 |}; Mounts := [Demo.dri] |}
             4242 cgroup.V2 Demo.dri (cgroup.backend Demo.host cgroup.V2)
             "/docker/0123456789abcdef0123" "/sys/fs/cgroup"
             {| IsDir := true |} cgroup.empty_state
             eq_refl eq_refl eq_refl eq_refl) eq_refl eq_refl).
  reflexivity.
Defined.

Example first_error_broken :
  first_error (lstat_tree Faulty.env "/dev/broken") = Some "permission denied"
  ∧ resolver_calls
      (trace (filepath_Walk Faulty.env "/dev/broken"
                (walkFn Faulty.env (cgroup.backend Demo.host cgroup.V2)
                   "/host/sys/fs/cgroup/x" 1) cgroup.empty_state))
    = ["/dev/broken/a"].
Proof. split; reflexivity. Qed.

(** ** Start-up and the reload listener *)

Section Listener.

Context {Version K : Type}.
Variable env : Env Version K.

Lemma scan_events_app (l1 l2 : list (BusLine + Event Version)) :
  scan_events (l1 ++ l2) = scan_events l1 ++ scan_events l2.
Proof. apply omap_app. Qed.

Lemma scan_events_inr (tr : list (Event Version)) :
  scan_events (map inr tr) = tr.
Proof.
  unfold scan_events. induction tr as [|ev tr IH]; [done|].
  cbn. f_equal. exact IH.
Qed.

Lemma scan_events_inl (ls : list BusLine) :
  scan_events (Version:=Version) (map inl ls) = [].
Proof.
  unfold scan_events. induction ls as [|l ls IH]; [done|]. cbn. exact IH.
Qed.

Lemma rangeSignals_step (v : Signal) (rest : list Signal) (k : K) :
  rangeSignals env (v :: rest) k
  = if decide (Name v = reloadingSignal) then
      let r := checkExistingContainers env k in
      let here := inl (LogReloading (reloadActive (Body v)))
                  :: inl LogReprocessing :: map inr (trace r) in
      match result r with
      | Ok _ =>
          let o := rangeSignals env rest (final r) in
          mkOutcome (outcome o) (here ++ lines o) (state o)
      | Crashed c => mkOutcome (Crashed c) here (final r)
      end
    else rangeSignals env rest k.
Proof. reflexivity. Qed.

(** X12.  The listener acts on the signals named
    [org.freedesktop.systemd1.Manager.Reloading] only: signals with any
    other name leave no line, start no scan and change nothing. *)
Theorem other_signals_ignored (signals : list Signal) (k : K) :
  rangeSignals env signals k
  = rangeSignals env (filter (λ v, Name v = reloadingSignal) signals) k.
Proof.
  revert k. induction signals as [|v rest IH]; intros k; [done|].
  rewrite filter_cons. rewrite rangeSignals_step. case_decide as Hname.
  - rewrite rangeSignals_step, decide_True by done. cbv zeta.
    destruct (result (checkExistingContainers env k)); [|done]. by rewrite IH.
  - apply IH.
Qed.

(** X13.  The body of a reload signal decides nothing but the flag in the
    log line: for two sequences of signals with the same names the
    listener runs the same scans, ends in the same way and leaves the
    same state, whatever the bodies are.  The flag is true only for a
    body that begins with the boolean true; an empty body or a first
    value of another type reads as false. *)
Theorem reload_body_only_logged (signals1 signals2 : list Signal) (k : K) :
  map Name signals1 = map Name signals2 →
  let o1 := rangeSignals env signals1 k in
  let o2 := rangeSignals env signals2 k in
  outcome o1 = outcome o2
  ∧ state o1 = state o2
  ∧ scan_events (lines o1) = scan_events (lines o2)
  ∧ (∀ body, reloadActive body = true ↔ ∃ rest, body = BusBool true :: rest).
Proof.
  intros Hnames. cbv zeta.
  assert (Hflag : ∀ body, reloadActive body = true
                          ↔ ∃ rest, body = BusBool true :: rest).
  { intros [|[[]| |] rest]; cbn; split; try done; try (by intros [? [=]]).
    by exists rest. }
  enough (Hsame : outcome (rangeSignals env signals1 k)
                  = outcome (rangeSignals env signals2 k)
                  ∧ state (rangeSignals env signals1 k)
                    = state (rangeSignals env signals2 k)
                  ∧ scan_events (lines (rangeSignals env signals1 k))
                    = scan_events (lines (rangeSignals env signals2 k)))
    by (destruct Hsame as (? & ? & ?); done).
  revert signals2 k Hnames.
  induction signals1 as [|v1 rest1 IH]; intros [|v2 rest2] k Hnames;
    try discriminate Hnames; [done|].
  injection Hnames as Hname Hrest. rewrite !rangeSignals_step, <- Hname.
  case_decide; [|by apply IH]. cbv zeta.
  destruct (result (checkExistingContainers env k)); [|done].
  cbn [outcome state lines].
  destruct (IH rest2 (final (checkExistingContainers env k)) Hrest)
    as (Hout & Hst & Hev).
  split; [done|]. split; [done|]. rewrite !scan_events_app, Hev. done.
Qed.

(** X14.  The main goroutine ends at once, before any scan, when the
    Docker client cannot be created.  Once the client exists, a failure to
    reach the system bus or to subscribe to the signal is only logged: the
    goroutine scans and listens exactly as without the bus, and the
    listener goroutine is started only when both bus calls succeed. *)
Theorem bus_failures_not_fatal (s : Startup) (items : list StreamItem) (k : K) :
  let run := main_goroutine env s items k in
  (∀ e, NewClientWithOpts s = Some e →
     run = (mkOutcome (Crashed ExitFatal)
              [inr (EvLog LogStarting); inr (EvLog (LogError e))] k, false))
  ∧ (NewClientWithOpts s = None →
     outcome run.1 = result (main env items k)
     ∧ state run.1 = final (main env items k)
     ∧ scan_events (lines run.1) = trace (main env items k)
     ∧ (run.2 = true ↔ SystemBus s = None ∧ AddMatchSignal s = None)).
Proof.
  intros run. subst run. unfold main_goroutine. split.
  - by intros e ->.
  - intros ->. cbn [fst snd outcome state lines].
    assert (Hmain : main env items k
                    = let r := (checkExistingContainers env;;
                                listenForMounts env items) k in
                      mkRun (result r) (EvLog LogStarting :: trace r) (final r)).
    { unfold main. rewrite bind_run. cbn [log emit result final trace].
      by destruct (result _). }
    rewrite Hmain. cbv zeta. cbn [result final trace].
    split; [done|]. split; [done|]. split.
    + change (inr (EvLog LogStarting) :: map inl (connectBus s).1 ++ ?l)
        with ([inr (EvLog LogStarting)] ++ map inl (connectBus s).1 ++ l).
      by rewrite !scan_events_app, scan_events_inl, scan_events_inr.
    + unfold connectBus.
      destruct (SystemBus s), (AddMatchSignal s); cbn; split; try done;
        by intros [? ?].
Qed.

End Listener.

Lemma reload_body_only_logged_witness :
  state (rangeSignals Demo.env
           [ {| Name := reloadingSignal; Body := [BusBool true] |} ]
           cgroup.empty_state)
  = state (rangeSignals Demo.env
             [ {| Name := reloadingSignal; Body := [BusString "yes"; BusBool true] |} ]
             cgroup.empty_state).
Proof.
  apply (reload_body_only_logged Demo.env
           [ {| Name := reloadingSignal; Body := [BusBool true] |} ]
           [ {| Name := reloadingSignal; Body := [BusString "yes"; BusBool true] |} ]
           cgroup.empty_state).
  reflexivity.
Defined.
